(** * Verification of the webpack configuration generator (src/index.ts)

    The module exports three functions: [generateParameters] scans the
    project tree for scripts and documents, [makeConfigWithParameters]
    assembles the bundler configuration from a parameters value and the
    caller's extra plugins, and [makeConfig] composes the two.

    The embedding is shallow.  Strings are [string], the [Record<string,
    string>] objects are [gmap string string], arrays are lists, the
    configuration object is a record.  The functions of [node:path] and
    [node:fs] that the module calls are modelled on POSIX, for a tree
    without symbolic links. *)

From Stdlib Require Import Ascii String ZArith.
From stdpp Require Import base option list gmap strings.

(** ** Strings *)

Module Str.

(** [s.startsWith(t)]. *)
Definition startsWith (s t : string) : bool := String.prefix t s.

(** [stripSuffix suffix s] is [Some pre] when [s = pre +:+ suffix]. *)
Fixpoint stripSuffix (suffix s : string) : option string :=
  if String.eqb s suffix then Some ""
  else match s with
       | "" => None
       | String c s' => String c <$> stripSuffix suffix s'
       end.

(** [s.endsWith(t)]. *)
Definition endsWith (s t : string) : bool :=
  bool_decide (is_Some (stripSuffix t s)).

Definition startsWithChar (c : ascii) (s : string) : bool :=
  match s with "" => false | String d _ => Ascii.eqb d c end.

(** Does the character occur in the string? *)
Fixpoint mem (c : ascii) (s : string) : bool :=
  match s with
  | "" => false
  | String d s' => Ascii.eqb d c || mem c s'
  end.

(** [s.replace(/c/g, d)] for a single character [c]. *)
Fixpoint replaceChar (c d : ascii) (s : string) : string :=
  match s with
  | "" => ""
  | String e s' => String (if Ascii.eqb e c then d else e) (replaceChar c d s')
  end.

(** [s.split(c)]: the pieces of [s] between the occurrences of [c]; never
    the empty list. *)
Fixpoint split (c : ascii) (s : string) : list string :=
  match s with
  | "" => [""]
  | String d s' =>
      if Ascii.eqb d c then "" :: split c s'
      else match split c s' with
           | [] => [String d ""]
           | piece :: pieces => String d piece :: pieces
           end
  end.

(** [pieces.join(sep)]. *)
Definition join (sep : string) (pieces : list string) : string :=
  String.concat sep pieces.

End Str.

(** ** The functions of [node:path] (POSIX)

    The functions are given by what they return on a path seen as its
    segments between separators, which is how Node documents them; each one
    follows the branches of the implementation in Node's [lib/path.js]. *)

Module Path.

Definition sep : ascii := "/"%char.

Definition segments (path : string) : list string := Str.split sep path.

Definition render (segs : list string) : string := Str.join "/" segs.

Definition isAbsolute (path : string) : bool := Str.startsWithChar sep path.

(** [path] without the separators at its end. *)
Fixpoint dropTrailing (path : string) : string :=
  match path with
  | "" => ""
  | String c rest =>
      match dropTrailing rest with
      | "" => if Ascii.eqb c sep then "" else String c ""
      | trimmed => String c trimmed
      end
  end.

(** One segment of [normalizeString]: empty segments and [.] are dropped,
    [..] removes the segment before it, or is kept when there is none to
    remove and the path may climb above its start.  The stack holds the
    segments kept so far, the last one first. *)
Definition normalizeStep (allowAboveRoot : bool)
    (stack : list string) (seg : string) : list string :=
  if String.eqb seg "" || String.eqb seg "." then stack
  else if String.eqb seg ".." then
    match stack with
    | [] => if allowAboveRoot then [".."] else []
    | top :: below =>
        if String.eqb top ".."
        then (if allowAboveRoot then ".." :: stack else stack)
        else below
    end
  else seg :: stack.

Definition normalizeSegments (allowAboveRoot : bool) (segs : list string) : list string :=
  rev (fold_left (normalizeStep allowAboveRoot) segs []).

Definition normalizeString (path : string) (allowAboveRoot : bool) : string :=
  render (normalizeSegments allowAboveRoot (segments path)).

Definition normalize (path : string) : string :=
  if String.eqb path "" then "."
  else
    let absolute := isAbsolute path in
    let trailingSeparator := Str.endsWith path "/" in
    let normalized := normalizeString path (negb absolute) in
    if String.eqb normalized "" then
      (if absolute then "/" else if trailingSeparator then "./" else ".")
    else
      let normalized := if trailingSeparator then normalized +:+ "/" else normalized in
      if absolute then "/" +:+ normalized else normalized.

(** [join(...args)]: the non-empty arguments, joined and normalized. *)
Definition join (args : list string) : string :=
  match filter (λ arg, arg ≠ "") args with
  | [] => "."
  | parts => normalize (Str.join "/" parts)
  end.

(** The loop of [resolve], from the last argument to the first, stopping
    at the first absolute one; the working directory is the first element
    of [paths]. *)
Fixpoint resolveJoin (paths : list string) : string * bool :=
  match paths with
  | [] => ("", false)
  | path :: later =>
      let '(resolvedPath, resolvedAbsolute) := resolveJoin later in
      if resolvedAbsolute then (resolvedPath, true)
      else if String.eqb path "" then (resolvedPath, false)
      else (path +:+ "/" +:+ resolvedPath, isAbsolute path)
  end.

Definition resolveSegments (cwd : string) (args : list string) : list string :=
  let '(resolvedPath, resolvedAbsolute) := resolveJoin (cwd :: args) in
  normalizeSegments (negb resolvedAbsolute) (segments resolvedPath).

(** [resolve(...args)] in a process whose working directory is [cwd]. *)
Definition resolve (cwd : string) (args : list string) : string :=
  let '(_, resolvedAbsolute) := resolveJoin (cwd :: args) in
  let resolvedPath := render (resolveSegments cwd args) in
  if resolvedAbsolute then "/" +:+ resolvedPath
  else if String.eqb resolvedPath "" then "." else resolvedPath.

Fixpoint dropCommon (from to : list string) : list string * list string :=
  match from, to with
  | x :: from', y :: to' =>
      if String.eqb x y then dropCommon from' to' else (from, to)
  | _, _ => (from, to)
  end.

(** [relative(from, to)]: both paths are resolved, the segments they share
    from the root are dropped, and the result climbs out of what is left
    of [from] and descends into what is left of [to].  The working
    directory of a process is absolute, so both resolved paths are. *)
Definition relative (cwd from to : string) : string :=
  if String.eqb from to then ""
  else
    let '(up, down) := dropCommon (resolveSegments cwd [from]) (resolveSegments cwd [to]) in
    render (replicate (length up) ".." ++ down).

(** [dirname(path)].  The scan runs from the end down to index 1: it skips
    the separators at the end, then stops at the last separator left. *)
Definition dirname (path : string) : string :=
  match path with
  | "" => "."
  | String c rest =>
      let hasRoot := Ascii.eqb c sep in
      match segments (dropTrailing rest) with
      | [] | [_] => if hasRoot then "/" else "."
      | segs =>
          let dir := String c (render (removelast segs)) in
          if hasRoot && String.eqb dir "/" then "//" else dir
      end
  end.

(** The last segment of [path], the separators at its end ignored. *)
Definition lastSegment (path : string) : string :=
  default "" (last (segments (dropTrailing path))).

(** The separators at the end of [path]. *)
Definition trailingSeparators (path : string) : string :=
  String.substring (String.length (dropTrailing path))
    (String.length path - String.length (dropTrailing path)) path.

(** [basename(path, suffix)], for a suffix without separator.  The suffix
    is removed from the last segment when that segment ends with it and is
    longer.  When the last segment is a proper end of the suffix the scan
    never closes the match, and Node returns the rest of the path from the
    segment on, the separators at the end included. *)
Definition basename (path suffix : string) : string :=
  let name := lastSegment path in
  if String.eqb suffix "" || (String.length path <? String.length suffix) then name
  else if String.eqb suffix path then ""
  else
    match Str.stripSuffix suffix name with
    | Some "" => name
    | Some stem => stem
    | None =>
        if Str.endsWith suffix name then name +:+ trailingSeparators path else name
    end.

(** [name] cut at its last dot: what stands before the dot, and the rest
    from the dot on. *)
Fixpoint splitLastDot (name : string) : option (string * string) :=
  match name with
  | "" => None
  | String c rest =>
      match splitLastDot rest with
      | Some (before, extension) => Some (String c before, extension)
      | None => if Ascii.eqb c "." then Some ("", String c rest) else None
      end
  end.

(** [extname(path)]: the last segment from its last dot on; empty when the
    segment has no dot, when the dot is its first character, and for [..]. *)
Definition extname (path : string) : string :=
  let name := lastSegment path in
  match splitLastDot name with
  | Some (before, extension) =>
      if String.eqb before "" || String.eqb name ".." then "" else extension
  | None => ""
  end.

(** A segment that [normalizeString] keeps as it is. *)
Definition kept (seg : string) : Prop :=
  seg ≠ "" ∧ seg ≠ "." ∧ seg ≠ ".." ∧ Str.mem sep seg = false.

(** The segments that the working directory contributes to a resolved
    path, the last one first. *)
Definition baseStack (cwd : string) : list string :=
  fold_left (normalizeStep (negb (isAbsolute cwd)))
    (if String.eqb cwd "" then [] else segments cwd) [].

End Path.

(** ** [globSync] of [node:fs]

    A pattern is matched segment by segment against a path relative to the
    working directory.  In a segment [*] stands for any run of characters,
    but a name that begins with a dot is matched only by a segment that
    begins with a dot; the segment [**] stands for any number of
    directories, none of which begins with a dot.  This is the pattern
    language that the module uses; character classes, braces and [?] are
    not modelled. *)

Module Glob.

Inductive part :=
| GlobStar
| Name (pattern : string).

Definition parse (pattern : string) : list part :=
  (λ segment, if String.eqb segment "**" then GlobStar else Name segment)
    <$> Path.segments pattern.

Fixpoint wildcard (pattern : string) : string → bool :=
  match pattern with
  | "" => λ name, String.eqb name ""
  | String c pattern' =>
      if Ascii.eqb c "*" then
        fix star (name : string) : bool :=
          wildcard pattern' name ||
          match name with
          | "" => false
          | String _ name' => star name'
          end
      else
        λ name,
          match name with
          | "" => false
          | String d name' => Ascii.eqb d c && wildcard pattern' name'
          end
  end.

Definition hidden (name : string) : bool := Str.startsWithChar "." name.

(** The name of a directory entry that [*] and [**] can stand for. *)
Definition visible (name : string) : bool :=
  negb (String.eqb name "") && negb (hidden name).

Definition matchName (pattern name : string) : bool :=
  negb (String.eqb name "") && (negb (hidden name) || hidden pattern)
  && wildcard pattern name.

Fixpoint matchParts (parts : list part) : list string → bool :=
  match parts with
  | [] => λ names, match names with [] => true | _ => false end
  | GlobStar :: parts' =>
      fix descend (names : list string) : bool :=
        matchParts parts' names ||
        match names with
        | [] => false
        | name :: names' => visible name && descend names'
        end
  | Name pattern :: parts' =>
      λ names,
        match names with
        | [] => false
        | name :: names' => matchName pattern name && matchParts parts' names'
        end
  end.

Definition matches (pattern path : string) : bool :=
  matchParts (parse pattern) (Path.segments path).

End Glob.

(** ** The process that runs the module

    [cwd] is [process.cwd()] and [globSync] is [fs.globSync] at the time of
    a call.  [treeHost] is the process whose working directory holds the
    entries [tree], given by their paths relative to it in the order in
    which the directory walk meets them.  It stands for a directory without
    symbolic links, and it answers every pattern in the order of [tree];
    [globsTree] below leaves each pattern an order of its own. *)

Record Host := {
  cwd : string;
  globSync : string → list string
}.

Definition treeHost (workingDirectory : string) (tree : list string) : Host := {|
  cwd := workingDirectory;
  globSync pattern := filter (λ path, Glob.matches pattern path = true) tree
|}.

(** [host] runs in a directory without symbolic links whose entries are
    [tree]: every glob answers with the entries that match its pattern, each
    as often as the tree has it, in an order of its own. *)
Definition globsTree (host : Host) (tree : list string) : Prop :=
  ∀ pattern,
    globSync host pattern ≡ₚ filter (λ path, Glob.matches pattern path = true) tree.

(** ** [generateParameters] *)

Record HtmlPage := {
  template : string;
  filename : string;
  chunks : list string
}.

Record Parameters := {
  entry : gmap string string;
  htmlPages : list HtmlPage;
  aliases : gmap string string
}.

Definition scriptExtension : string := ".ts".
Definition documentExtension : string := ".html".

(** [object[key] = value] on an object created by [{}]: the key [__proto__]
    reaches the accessor inherited from [Object.prototype], which ignores a
    string, so the object gets no property. *)
Definition setProperty (key value : string) (object : gmap string string)
    : gmap string string :=
  if String.eqb key "__proto__" then object else <[key := value]> object.

(** [__dirname] is the constant of the module, set to [cwd()] when the
    module is loaded; [host] is the process at the time of the call. *)
Definition generateParameters (__dirname : string) (host : Host) : Parameters :=
  let entry :=
    fold_left
      (λ entry scriptFilePath,
         setProperty (Path.basename scriptFilePath scriptExtension)
                     ("./" +:+ scriptFilePath) entry)
      (globSync host ("src/scripts/*" +:+ scriptExtension)) ∅ in
  let htmlPages :=
    fold_left
      (λ htmlPages documentFilePath,
         let relativePath := Path.relative (cwd host) "src" documentFilePath in
         htmlPages ++ [ {|
           template := documentFilePath;
           filename := relativePath;
           chunks := [
             Str.replaceChar "/" "_"
               (Path.join [Path.dirname relativePath;
                           Path.basename documentFilePath documentExtension])
           ]
         |} ])
      (globSync host ("src/**/*" +:+ documentExtension)) [] in
  {|
    entry := entry;
    htmlPages := htmlPages;
    aliases := {[
      "lit" := "lit";
      "litDecorators" := "lit/decorators.js";
      "altshiftBox" :=
        Path.resolve (cwd host)
          [__dirname; "node_modules/@altshiftab/web_components/dist/box.js"];
      "altshiftSwitch" :=
        Path.resolve (cwd host)
          [__dirname; "node_modules/@altshiftab/web_components/dist/switch.js"]
    ]}
  |}.

(** ** The configuration object *)

Record RegExp := {
  source : string;
  flags : string
}.

(** The values of the object literals that the module passes to the bundler
    and to the plugins.  [Ref] is a value exported by a library, named by
    the expression that reads it; [Filter] is a function of the tag, the
    attribute and the attributes of an element. *)
#[warnings="-register-all"] Inductive Value :=
| Str (s : string)
| Bool (b : bool)
| Num (n : Z)
| Re (r : RegExp)
| Arr (items : list Value)
| Obj (fields : list (string * Value))
| Ref (name : string)
| Filter (f : string → string → list (gmap string string) → bool).

(** The plugin objects that [new] creates.  [OtherPlugin] is an instance of
    a class that the module does not construct itself. *)
Inductive PluginInstance :=
| TerserPlugin (options : Value)
| CssMinimizerPlugin
| ImageMinimizerPlugin (options : Value)
| ProvidePlugin (definitions : list (string * string))
| LimitChunkCountPlugin (options : Value)
| RemoveEmptyScriptsPlugin
| MiniCssExtractPlugin (options : Value)
| HtmlWebpackPlugin (options : HtmlPage)
| SubresourceIntegrityPlugin
| OtherPlugin (name : string).

(** The type [WebpackPlugin] of the module: the falsy values, a function of
    the compiler, or a plugin instance. *)
Inductive WebpackPlugin :=
| Undefined
| Null
| False_
| EmptyString_
| Zero
| CompilerFunction (name : string)
| Instance (plugin : PluginInstance).

Coercion Instance : PluginInstance >-> WebpackPlugin.

Module Configuration.

Record Output := {
  filename : string;
  path : string;
  clean : bool;
  crossOriginLoading : string
}.

Record Optimization := {
  minimize : bool;
  minimizer : list PluginInstance;
  splitChunks : Value
}.

Record Resolve := {
  extensions : list string;
  alias : gmap string string
}.

Record ModuleOptions := {
  rules : list Value
}.

Record t := {
  mode : string;
  entry : gmap string string;
  output : Output;
  devtool : string;
  optimization : Optimization;
  resolve : Resolve;
  plugins : list WebpackPlugin;
  module : ModuleOptions
}.

End Configuration.

(** The filter of the [link] source of [html-loader]:
    [attributes.find(a => a.name === "rel")?.value || ""] tested against
    [/^(icon|mask-icon|apple-touch-icon)$/]. *)
Definition linkFilter (tag attribute : string)
    (attributes : list (gmap string string)) : bool :=
  let rel :=
    match List.find (λ a, bool_decide (a !! "name" = Some "rel")) attributes with
    | Some a => default "" (a !! "value")
    | None => ""
    end in
  bool_decide (rel ∈ ["icon"; "mask-icon"; "apple-touch-icon"]).

(** The rules of [module.rules], in the order of the source. *)
Definition moduleRules : list Value := [
  Obj [("test", Re {| source := "\.css$"; flags := "" |});
       ("use", Arr [Ref "MiniCssExtractPlugin.loader"; Str "css-loader"])];
  Obj [("test", Re {| source := "\.(woff2?|eot|ttf|otf)$"; flags := "i" |});
       ("type", Str "asset/resource");
       ("generator", Obj [("filename", Str "fonts/[name].[contenthash][ext]")])];
  Obj [("test", Re {| source := "\.(png|svg|jpg|jpeg|gif|avif)$"; flags := "" |});
       ("type", Str "asset/resource");
       ("generator", Obj [("filename", Str "images/[name].[contenthash][ext]")])];
  Obj [("test", Re {| source := "\.html$"; flags := "" |});
       ("loader", Str "html-loader");
       ("options", Obj [
          ("sources", Obj [
             ("list", Arr [
                Str "...";
                Obj [("tag", Str "link");
                     ("attribute", Str "href");
                     ("type", Str "src");
                     ("filter", Filter linkFilter)]])])])];
  Obj [("test", Re {| source := "\.ts$"; flags := "" |});
       ("use", Arr [Obj [("loader", Str "@altshiftab/minify_lit")]])];
  Obj [("test", Re {| source := "\.ts$"; flags := "" |});
       ("exclude", Re {| source := "node_modules"; flags := "" |});
       ("use", Arr [
          Obj [("loader", Str "ts-loader");
               ("options", Obj [
                  ("compilerOptions", Obj [
                     ("module", Str "ESNext");
                     ("moduleResolution", Str "Bundler");
                     ("target", Str "ESNext");
                     ("esModuleInterop", Bool true);
                     ("strict", Bool true);
                     ("outDir", Str "./dist");
                     ("experimentalDecorators", Bool true);
                     ("useDefineForClassFields", Bool false)]);
                  ("onlyCompileBundledFiles", Bool true)])]])]
].

(** [makeConfigWithParameters(parameters, ...extraPlugins)]. *)
Definition makeConfigWithParameters (__dirname : string) (host : Host)
    (parameters : Parameters) (extraPlugins : list WebpackPlugin)
    : Configuration.t := {|
  Configuration.mode := "production";
  Configuration.entry := entry parameters;
  Configuration.output := {|
    Configuration.filename := "scripts/[name]-[contenthash].js";
    Configuration.path := Path.resolve (cwd host) [__dirname; "dist"];
    Configuration.clean := true;
    Configuration.crossOriginLoading := "anonymous"
  |};
  Configuration.devtool := "source-map";
  Configuration.optimization := {|
    Configuration.minimize := true;
    Configuration.minimizer := [
      TerserPlugin (Obj [("terserOptions", Obj [("compress", Bool true)])]);
      CssMinimizerPlugin;
      ImageMinimizerPlugin (Obj [
        ("test", Re {| source := "\.svg$"; flags := "i" |});
        ("minimizer", Obj [
           ("implementation", Ref "ImageMinimizerPlugin.svgoMinify");
           ("options", Obj [
              ("multipass", Bool true);
              ("plugins", Arr [
                 Obj [("name", Str "preset-default");
                      ("params", Obj [
                         ("overrides", Obj [("removeViewBox", Bool false)])])]])])])])
    ];
    Configuration.splitChunks := Obj [("chunks", Str "all")]
  |};
  Configuration.resolve := {|
    Configuration.extensions := [".ts"; ".js"];
    Configuration.alias := aliases parameters
  |};
  Configuration.plugins :=
    extraPlugins ++
    [ Instance (ProvidePlugin [
        ("lit", "lit");
        ("litDecorators", "lit/decorators.js");
        ("altshiftBox", "@altshiftab/web_components/box");
        ("altshiftSwitch", "@altshiftab/web_components/switch")]);
      Instance (LimitChunkCountPlugin (Obj [("maxChunks", Num 1)]));
      Instance RemoveEmptyScriptsPlugin;
      Instance (MiniCssExtractPlugin
                  (Obj [("filename", Str "styles/[name]-[contenthash].css")])) ] ++
    ((λ page, Instance (HtmlWebpackPlugin page)) <$> htmlPages parameters) ++
    [ Instance SubresourceIntegrityPlugin ];
  Configuration.module := {| Configuration.rules := moduleRules |}
|}.

(** [makeConfig(...extraPlugins)]. *)
Definition makeConfig (__dirname : string) (host : Host)
    (extraPlugins : list WebpackPlugin) : Configuration.t :=
  makeConfigWithParameters __dirname host
    (generateParameters __dirname host) extraPlugins.

(** ** Vocabulary of the properties *)

Definition scriptPattern : string := "src/scripts/*" +:+ scriptExtension.
Definition documentPattern : string := "src/**/*" +:+ documentExtension.

(** A name that a wildcard of a pattern can stand for: not empty, without
    separator, not beginning with a dot. *)
Definition plainName (name : string) : bool :=
  Glob.visible name && negb (Str.mem Path.sep name).

(** An entry directly in [src/scripts] whose plain name ends in [.ts]. *)
Definition isScript (path : string) : Prop :=
  ∃ stem,
    path = "src/scripts/" +:+ stem +:+ scriptExtension ∧
    plainName (stem +:+ scriptExtension) = true.

(** An entry whose plain name ends in [.html], below [src] through any
    number of directories with plain names. *)
Definition isDocument (path : string) : Prop :=
  ∃ dirs stem,
    path = Path.render ("src" :: dirs ++ [stem +:+ documentExtension]) ∧
    Forall (λ dir, plainName dir = true) dirs ∧
    plainName (stem +:+ documentExtension) = true.

(** The path ends in the extension, and lies below the directory. *)
Definition hasExtension (extension path : string) : Prop :=
  Str.endsWith path extension = true.

Definition liesUnder (directory path : string) : Prop :=
  Str.startsWith path (directory +:+ "/") = true.

(** What an entry of the tree contributes to the parameters. *)
Definition contributesEntry (parameters : Parameters) (path : string) : Prop :=
  ∃ name, entry parameters !! name = Some ("./" +:+ path).

Definition contributesPage (parameters : Parameters) (path : string) : Prop :=
  ∃ page, page ∈ htmlPages parameters ∧ template page = path.

(** The classification by extension and location alone: an entry of the
    tree contributes a pair exactly when it ends in [.ts] and lies under
    [src/scripts], and a page exactly when it ends in [.html] and lies under
    [src]. *)
Definition scriptByExtensionAndLocation (parameters : Parameters) (path : string) : Prop :=
  contributesEntry parameters path ↔
  hasExtension scriptExtension path ∧ liesUnder "src/scripts" path.

Definition documentByExtensionAndLocation (parameters : Parameters) (path : string) : Prop :=
  contributesPage parameters path ↔
  hasExtension documentExtension path ∧ liesUnder "src" path.

(** The assignment that the first loop of [generateParameters] makes for a
    script. *)
Definition addScript (entry : gmap string string) (scriptFilePath : string)
    : gmap string string :=
  setProperty (Path.basename scriptFilePath scriptExtension)
              ("./" +:+ scriptFilePath) entry.

(** The page descriptor that [generateParameters] pushes for a document. *)
Definition pageOf (host : Host) (documentFilePath : string) : HtmlPage :=
  let relativePath := Path.relative (cwd host) "src" documentFilePath in {|
    template := documentFilePath;
    filename := relativePath;
    chunks := [
      Str.replaceChar "/" "_"
        (Path.join [Path.dirname relativePath;
                    Path.basename documentFilePath documentExtension])
    ]
  |}.

(** The plugins that [makeConfigWithParameters] creates ahead of the pages. *)
Definition leadingPlugins : list WebpackPlugin := [
  Instance (ProvidePlugin [
    ("lit", "lit");
    ("litDecorators", "lit/decorators.js");
    ("altshiftBox", "@altshiftab/web_components/box");
    ("altshiftSwitch", "@altshiftab/web_components/switch")]);
  Instance (LimitChunkCountPlugin (Obj [("maxChunks", Num 1)]));
  Instance RemoveEmptyScriptsPlugin;
  Instance (MiniCssExtractPlugin
              (Obj [("filename", Str "styles/[name]-[contenthash].css")]))
].

Definition isHtmlWebpackPlugin (plugin : WebpackPlugin) : bool :=
  match plugin with
  | Instance (HtmlWebpackPlugin _) => true
  | _ => false
  end.

(** The [test] of a rule. *)
Definition ruleTest (rule : Value) : option RegExp :=
  match rule with
  | Obj (("test", Re r) :: _) => Some r
  | _ => None
  end.

(** The options of a plugin when it is an HtmlWebpackPlugin. *)
Definition htmlPluginOptions (plugin : WebpackPlugin) : option HtmlPage :=
  match plugin with
  | Instance (HtmlWebpackPlugin page) => Some page
  | _ => None
  end.

(** The values of [rel] for which the filter of the [link] source answers
    [true]. *)
Definition iconRelations : list string := ["icon"; "mask-icon"; "apple-touch-icon"].

(** An attribute named [rel]. *)
Definition isRel (attribute : gmap string string) : Prop :=
  attribute !! "name" = Some "rel".

(** ** The earlier revision of the discovery (src/unnamed/part_000)

    One loop over [globSync("src/**")] with a [switch] on [extname]: a
    document is written under its base name, and a script is taken wherever
    it lies under [src]. *)

Module Earlier.

(** One turn of the loop. *)
Definition visit (state : gmap string string * list HtmlPage)
    (sourceFilePath : string) : gmap string string * list HtmlPage :=
  let '(entry, htmlPages) := state in
  let extension := Path.extname sourceFilePath in
  if String.eqb extension ".html" then
    let chunk := Path.basename sourceFilePath extension in
    (entry,
     htmlPages ++ [ {|
       template := sourceFilePath;
       filename := chunk +:+ extension;
       chunks := [chunk]
     |} ])
  else if String.eqb extension ".ts" then
    (setProperty (Path.basename sourceFilePath extension)
                 ("./" +:+ sourceFilePath) entry,
     htmlPages)
  else (entry, htmlPages).

Definition generateParameters (__dirname : string) (host : Host) : Parameters :=
  let '(entry, htmlPages) := fold_left visit (globSync host "src/**") (∅, []) in
  {|
    entry := entry;
    htmlPages := htmlPages;
    aliases := {[
      "lit" := "lit";
      "litDecorators" := "lit/decorators.js";
      "altshiftBox" :=
        Path.resolve (cwd host)
          [__dirname; "node_modules/@altshiftab/web_components/dist/box.js"];
      "altshiftSwitch" :=
        Path.resolve (cwd host)
          [__dirname; "node_modules/@altshiftab/web_components/dist/switch.js"]
    ]}
  |}.

(** The page that the loop pushes for a document. *)
Definition pageOf (sourceFilePath : string) : HtmlPage := {|
  template := sourceFilePath;
  filename := Path.basename sourceFilePath ".html" +:+ ".html";
  chunks := [Path.basename sourceFilePath ".html"]
|}.

End Earlier.

(** * Properties

    ** The functions on concrete inputs *)

Example basename_examples :
  Path.basename "src/scripts/main.ts" ".ts" = "main" ∧
  Path.basename "src/about/index.html" ".html" = "index" ∧
  Path.basename "src/.html" ".html" = ".html" ∧
  Path.basename "src/readme.md" ".ts" = "readme.md".
Proof. by vm_compute. Qed.

Example dirname_examples :
  Path.dirname "index.html" = "." ∧
  Path.dirname "about/team/index.html" = "about/team" ∧
  Path.dirname "/index.html" = "/".
Proof. by vm_compute. Qed.

Example join_examples :
  Path.join ["."; "index"] = "index" ∧
  Path.join ["about/team"; "index"] = "about/team/index" ∧
  Path.join ["about"; "../index"] = "index".
Proof. by vm_compute. Qed.

Example relative_examples :
  Path.relative "/work" "src" "src/about/index.html" = "about/index.html" ∧
  Path.relative "/work" "src" "lib/index.html" = "../lib/index.html" ∧
  Path.relative "/work" "src" "src" = "".
Proof. by vm_compute. Qed.

Example resolve_examples :
  Path.resolve "/home/user" ["/work"; "dist"] = "/work/dist" ∧
  Path.resolve "/home/user" ["dist"] = "/home/user/dist" ∧
  Path.resolve "/home/user" ["../a/./b/"] = "/home/a/b".
Proof. by vm_compute. Qed.

Example matches_examples :
  Glob.matches "src/scripts/*.ts" "src/scripts/main.ts" = true ∧
  Glob.matches "src/scripts/*.ts" "src/scripts/lib/util.ts" = false ∧
  Glob.matches "src/scripts/*.ts" "src/scripts/.draft.ts" = false ∧
  Glob.matches "src/**/*.html" "src/index.html" = true ∧
  Glob.matches "src/**/*.html" "src/about/team/index.html" = true ∧
  Glob.matches "src/**/*.html" "src/.cache/index.html" = false ∧
  Glob.matches "src/**/*.html" "public/index.html" = false.
Proof. by vm_compute. Qed.

Example generateParameters_example :
  generateParameters "/work"
    (treeHost "/work" [
       "src"; "src/index.html"; "src/about"; "src/about/index.html";
       "src/scripts"; "src/scripts/main.ts"; "src/scripts/admin.ts";
       "src/styles"; "src/styles/main.css"])
  = {|
    entry := {[
      "main" := "./src/scripts/main.ts";
      "admin" := "./src/scripts/admin.ts"
    ]};
    htmlPages := [
      {| template := "src/index.html"; filename := "index.html";
         chunks := ["index"] |};
      {| template := "src/about/index.html"; filename := "about/index.html";
         chunks := ["about_index"] |}
    ];
    aliases := {[
      "lit" := "lit";
      "litDecorators" := "lit/decorators.js";
      "altshiftBox" := "/work/node_modules/@altshiftab/web_components/dist/box.js";
      "altshiftSwitch" := "/work/node_modules/@altshiftab/web_components/dist/switch.js"
    ]}
  |}.
Proof. by vm_compute. Qed.

(** ** Strings *)

Module StrFacts.
Import Str.

Lemma append_cons c s t : String c s +:+ t = String c (s +:+ t).
Proof. reflexivity. Qed.

Lemma append_empty_l s : "" +:+ s = s.
Proof. reflexivity. Qed.

Lemma append_empty_r s : s +:+ "" = s.
Proof. induction s as [|c s IH]; [done|]. by rewrite append_cons, IH. Qed.

Lemma append_assoc s t u : (s +:+ t) +:+ u = s +:+ t +:+ u.
Proof. induction s as [|c s IH]; [done|]. by rewrite !append_cons, IH. Qed.

Lemma length_append s t :
  String.length (s +:+ t) = String.length s + String.length t.
Proof. induction s as [|c s IH]; [done|]. rewrite append_cons. simpl. lia. Qed.

Lemma join_cons sep s t l :
  join sep (s :: t :: l) = s +:+ sep +:+ join sep (t :: l).
Proof. reflexivity. Qed.

Lemma join_cons_char sep c s l :
  join sep (String c s :: l) = String c (join sep (s :: l)).
Proof. destruct l; reflexivity. Qed.

Lemma join_app sep l1 s l2 :
  join sep (l1 ++ s :: l2) =
  match l1 with [] => join sep (s :: l2) | _ => join sep l1 +:+ sep +:+ join sep (s :: l2) end.
Proof.
  induction l1 as [|a l1 IH]; [done|].
  destruct l1 as [|b l1]; [done|].
  change ((a :: b :: l1) ++ s :: l2) with (a :: ((b :: l1) ++ s :: l2)).
  change ((b :: l1) ++ s :: l2) with (b :: (l1 ++ s :: l2)) in *.
  rewrite join_cons, IH, join_cons, !append_assoc. done.
Qed.

Lemma split_nonempty c s : split c s ≠ [].
Proof.
  destruct s as [|d s]; simpl; [done|].
  destruct (Ascii.eqb d c); [done|]. by destruct (split c s).
Qed.

Lemma split_no_mem c s : mem c s = false → split c s = [s].
Proof.
  induction s as [|d s IH]; simpl; [done|].
  destruct (Ascii.eqb d c); simpl; [done|].
  intros H. by rewrite IH.
Qed.

(** Splitting at a separator splits the list of pieces. *)
Lemma split_append c s t :
  mem c s = false →
  split c (s +:+ String c t) = s :: split c t.
Proof.
  induction s as [|d s IH]; simpl.
  - intros _. rewrite ?append_empty_l. simpl. by rewrite Ascii.eqb_refl.
  - destruct (Ascii.eqb d c) eqn:E; simpl; [done|].
    intros H. by rewrite IH.
Qed.

Lemma split_join c l :
  l ≠ [] → Forall (λ s, mem c s = false) l →
  split c (join (String c "") l) = l.
Proof.
  induction l as [|s l IH]; [done|]. intros _ Hall.
  apply Forall_cons in Hall as [Hs Hl].
  destruct l as [|t l]; [by apply split_no_mem|].
  rewrite join_cons. change (String c "" +:+ ?x) with (String c x).
  rewrite split_append by done. f_equal. by apply IH.
Qed.

Lemma split_pieces c s : Forall (λ p, mem c p = false) (split c s).
Proof.
  induction s as [|d s IH]; simpl; [by repeat constructor|].
  destruct (Ascii.eqb d c) eqn:E; [by constructor|].
  pose proof (split_nonempty c s).
  destruct (split c s) as [|p ps]; [done|].
  apply Forall_cons in IH as [Hp Hps].
  constructor; [|done]. simpl. by rewrite E.
Qed.

Lemma join_split c s : join (String c "") (split c s) = s.
Proof.
  induction s as [|d s IH]; simpl; [done|].
  destruct (Ascii.eqb d c) eqn:E.
  - apply Ascii.eqb_eq in E as ->.
    pose proof (split_nonempty c s).
    destruct (split c s) as [|p ps] eqn:Hs; [done|].
    rewrite join_cons, append_empty_l. change (String c "" +:+ ?x) with (String c x).
    by rewrite IH.
  - pose proof (split_nonempty c s).
    destruct (split c s) as [|p ps] eqn:Hs; [done|].
    by rewrite join_cons_char, IH.
Qed.

Lemma replaceChar_append c d s t :
  replaceChar c d (s +:+ t) = replaceChar c d s +:+ replaceChar c d t.
Proof. induction s as [|e s IH]; [done|]. rewrite append_cons. simpl. by rewrite IH. Qed.

Lemma replaceChar_no_mem c d s : mem c s = false → replaceChar c d s = s.
Proof.
  induction s as [|e s IH]; simpl; [done|].
  destruct (Ascii.eqb e c); simpl; [done|]. intros H. by rewrite IH.
Qed.

(** Replacing the separator of a joined list changes the separator only. *)
Lemma replaceChar_join c d l :
  Forall (λ s, mem c s = false) l →
  replaceChar c d (join (String c "") l) = join (String d "") l.
Proof.
  induction l as [|s l IH]; [done|]. intros Hall.
  apply Forall_cons in Hall as [Hs Hl].
  destruct l as [|t l]; [by apply replaceChar_no_mem|].
  rewrite !join_cons, !replaceChar_append, IH by done.
  rewrite replaceChar_no_mem by done. simpl. by rewrite Ascii.eqb_refl.
Qed.

Lemma stripSuffix_cons suffix c s :
  stripSuffix suffix (String c s) =
  if String.eqb (String c s) suffix then Some "" else String c <$> stripSuffix suffix s.
Proof. reflexivity. Qed.

Lemma stripSuffix_refl suffix : stripSuffix suffix suffix = Some "".
Proof. destruct suffix; unfold stripSuffix; by rewrite String.eqb_refl. Qed.

Lemma stripSuffix_append suffix pre :
  stripSuffix suffix (pre +:+ suffix) = Some pre.
Proof.
  induction pre as [|c pre IH].
  - apply stripSuffix_refl.
  - rewrite append_cons, stripSuffix_cons.
    destruct (String.eqb (String c (pre +:+ suffix)) suffix) eqn:E.
    + apply String.eqb_eq in E. apply (f_equal String.length) in E.
      simpl in E. rewrite length_append in E. lia.
    + by rewrite IH.
Qed.

Lemma stripSuffix_Some suffix s pre :
  stripSuffix suffix s = Some pre → s = pre +:+ suffix.
Proof.
  revert pre. induction s as [|c s IH]; intros pre.
  - unfold stripSuffix. destruct (String.eqb "" suffix) eqn:E; [|done].
    apply String.eqb_eq in E as <-. by intros [= <-].
  - rewrite stripSuffix_cons. destruct (String.eqb (String c s) suffix) eqn:E.
    + apply String.eqb_eq in E as <-. by intros [= <-].
    + destruct (stripSuffix suffix s) as [pre'|] eqn:Hs; [|done].
      intros [= <-]. by rewrite append_cons, (IH pre').
Qed.

Lemma endsWith_spec s t : endsWith s t = true ↔ ∃ pre, s = pre +:+ t.
Proof.
  unfold endsWith. rewrite bool_decide_eq_true. split.
  - intros [pre H]. exists pre. by apply stripSuffix_Some.
  - intros [pre ->]. rewrite stripSuffix_append. by eexists.
Qed.

Lemma mem_append c s t : mem c (s +:+ t) = mem c s || mem c t.
Proof.
  induction s as [|d s IH]; [done|]. rewrite append_cons. simpl.
  rewrite IH. by destruct (Ascii.eqb d c).
Qed.

End StrFacts.

(** ** Paths made of plain segments *)

Module PathFacts.
Import Str StrFacts Path.

Lemma split_append_any c s t :
  split c (s +:+ String c t) = split c s ++ split c t.
Proof.
  induction s as [|d s IH].
  - simpl. by rewrite Ascii.eqb_refl.
  - rewrite append_cons. simpl. rewrite IH.
    destruct (Ascii.eqb d c); [done|].
    pose proof (split_nonempty c s). by destruct (split c s).
Qed.

Lemma normalizeStep_kept allow stack seg :
  kept seg → normalizeStep allow stack seg = seg :: stack.
Proof.
  intros (H1 & H2 & H3 & _). unfold normalizeStep.
  apply String.eqb_neq in H1, H2, H3. by rewrite H1, H2, H3.
Qed.

Lemma normalizeStep_empty allow stack : normalizeStep allow stack "" = stack.
Proof. reflexivity. Qed.

Lemma normalize_fold_kept allow segs stack :
  Forall kept segs →
  fold_left (normalizeStep allow) segs stack = rev segs ++ stack.
Proof.
  intros Hall. revert stack.
  induction Hall as [|seg segs Hseg _ IH]; intros stack; [done|].
  simpl. rewrite normalizeStep_kept, IH by done. by rewrite <-app_assoc.
Qed.

Lemma dropCommon_app l from to :
  dropCommon (l ++ from) (l ++ to) = dropCommon from to.
Proof. induction l as [|x l IH]; [done|]. simpl. by rewrite String.eqb_refl. Qed.

Lemma dropCommon_nil to : dropCommon [] to = ([], to).
Proof. by destruct to. Qed.

Lemma dropTrailing_no_sep t : mem sep t = false → dropTrailing t = t.
Proof.
  induction t as [|c t IH]; [done|]. simpl.
  destruct (Ascii.eqb c sep) eqn:E; [done|]. simpl. intros H.
  rewrite IH by done. by destruct t.
Qed.

Lemma dropTrailing_append s t :
  t ≠ "" → mem sep t = false → dropTrailing (s +:+ t) = s +:+ t.
Proof.
  intros Ht Hm. induction s as [|c s IH].
  - by apply dropTrailing_no_sep.
  - rewrite append_cons. simpl. rewrite IH.
    destruct (s +:+ t) eqn:E; [|done].
    apply (f_equal String.length) in E. rewrite length_append in E.
    destruct t; [done|]. simpl in E. lia.
Qed.

Lemma stripSuffix_sep_no_sep t :
  mem sep t = false → stripSuffix "/" t = None.
Proof.
  induction t as [|c t IH]; [done|]. simpl mem.
  destruct (Ascii.eqb c sep) eqn:E; [done|]. intros H. simpl in H.
  rewrite stripSuffix_cons, IH by done.
  destruct (String.eqb (String c t) "/") eqn:E'; [|done].
  apply String.eqb_eq in E'. injection E' as -> ->.
  by rewrite Ascii.eqb_refl in E.
Qed.

(** A path that ends in a name does not end in a separator. *)
Lemma endsWith_sep_append s t :
  t ≠ "" → mem sep t = false → endsWith (s +:+ t) "/" = false.
Proof.
  intros Ht Hm. unfold endsWith. apply bool_decide_eq_false. intros [pre H].
  revert pre H. induction s as [|c s IH]; intros pre.
  - by rewrite append_empty_l, stripSuffix_sep_no_sep.
  - rewrite append_cons, stripSuffix_cons.
    destruct (String.eqb (String c (s +:+ t)) "/") eqn:E.
    + apply String.eqb_eq in E. injection E as _ E.
      apply (f_equal String.length) in E. rewrite length_append in E.
      destruct t; [done|]. simpl in E. lia.
    + destruct (stripSuffix "/" (s +:+ t)) as [pre'|] eqn:E'; [|done].
      intros _. by eapply IH.
Qed.

Lemma render_cons s t l : render (s :: t :: l) = s +:+ "/" +:+ render (t :: l).
Proof. reflexivity. Qed.

Lemma render_snoc l s :
  l ≠ [] → render (l ++ [s]) = render l +:+ "/" +:+ s.
Proof. intros H. unfold render. rewrite join_app. by destruct l. Qed.

Lemma segments_render l :
  l ≠ [] → Forall (λ s, mem sep s = false) l → segments (render l) = l.
Proof. apply split_join. Qed.

Lemma kept_no_sep segs : Forall kept segs → Forall (λ s, mem sep s = false) segs.
Proof. intros H. eapply Forall_impl; [done|]. by intros s (_ & _ & _ & Hs). Qed.

Lemma render_nonempty s l : s ≠ "" → render (s :: l) ≠ "".
Proof. destruct s as [|c s]; [done|]. intros _. by rewrite (join_cons_char "/"). Qed.

Lemma isAbsolute_render s l :
  s ≠ "" → mem sep s = false → isAbsolute (render (s :: l)) = false.
Proof.
  destruct s as [|c s]; [done|]. intros _ H. simpl in H.
  unfold render. rewrite join_cons_char. simpl.
  by destruct (Ascii.eqb c sep).
Qed.

Lemma resolveSegments_kept cwd segs :
  segs ≠ [] → Forall kept segs →
  resolveSegments cwd [render segs] = rev (baseStack cwd) ++ segs.
Proof.
  intros Hne Hall. destruct segs as [|s l]; [done|].
  pose proof (Forall_inv Hall) as (Hs & _ & _ & Hsep).
  pose proof (render_nonempty s l Hs) as Hr. apply String.eqb_neq in Hr.
  pose proof (isAbsolute_render s l Hs Hsep) as Habs.
  unfold resolveSegments, resolveJoin. rewrite Hr, Habs.
  unfold baseStack, normalizeSegments.
  assert (segments (render (s :: l) +:+ "/" +:+ "") = (s :: l) ++ [""]) as Hseg.
  { unfold segments. change ("/" +:+ "") with (String sep "").
    rewrite split_append_any. f_equal.
    apply split_join; [done|]. by apply kept_no_sep. }
  destruct (String.eqb cwd "") eqn:Hcwd.
  - apply String.eqb_eq in Hcwd as ->. rewrite Hseg. simpl isAbsolute. simpl negb.
    rewrite fold_left_app, (normalize_fold_kept _ (s :: l)) by done.
    cbn [fold_left]. by rewrite normalizeStep_empty, rev_app_distr, rev_involutive.
  - assert (segments (cwd +:+ "/" +:+ render (s :: l) +:+ "/" +:+ "")
            = segments cwd ++ (s :: l) ++ [""]) as ->.
    { unfold segments at 1. change ("/" +:+ ?x) with (String sep x) at 1.
      rewrite split_append_any. f_equal. apply Hseg. }
    rewrite !fold_left_app, (normalize_fold_kept _ (s :: l)) by done.
    cbn [fold_left]. by rewrite normalizeStep_empty, rev_app_distr, rev_involutive.
Qed.

(** The path from a directory to a path below it is what follows the
    directory, whatever the working directory. *)
Lemma relative_under cwd root rest :
  kept root → Forall kept rest → rest ≠ [] →
  relative cwd root (render (root :: rest)) = render rest.
Proof.
  intros Hroot Hrest Hne. unfold relative.
  assert (String.eqb root (render (root :: rest)) = false) as ->.
  { apply String.eqb_neq. intros H. apply (f_equal String.length) in H.
    destruct rest as [|r rest]; [done|].
    rewrite render_cons, !length_append in H. simpl in H. lia. }
  assert (Forall kept [root]) by (by constructor).
  assert (Forall kept (root :: rest)) by (by constructor).
  change root with (render [root]) at 1.
  rewrite !resolveSegments_kept by done.
  change (root :: rest) with ([root] ++ rest).
  rewrite !app_assoc, <-(app_nil_r (rev (baseStack cwd) ++ [root])) at 1.
  by rewrite dropCommon_app, dropCommon_nil.
Qed.

Lemma dirname_name name :
  name ≠ "" → mem sep name = false → dirname name = ".".
Proof.
  destruct name as [|c name]; [done|]. intros _ H. simpl in H.
  destruct (Ascii.eqb c sep) eqn:E; [done|]. simpl in H.
  unfold dirname. rewrite E, dropTrailing_no_sep by done.
  unfold segments. by rewrite split_no_mem.
Qed.

Lemma removelast_snoc {A} (l : list A) x : removelast (l ++ [x]) = l.
Proof. by rewrite removelast_app, app_nil_r by done. Qed.

(** The directory of a path with several segments is the path without its
    last segment. *)
Lemma dirname_render dirs name :
  dirs ≠ [] → Forall kept dirs → name ≠ "" → mem sep name = false →
  dirname (render (dirs ++ [name])) = render dirs.
Proof.
  intros Hne Hall Hname Hsep.
  destruct dirs as [|d dirs]; [done|].
  pose proof (Forall_inv Hall) as (Hd & _ & _ & Hdsep).
  destruct d as [|c d]; [done|]. simpl in Hdsep.
  destruct (Ascii.eqb c sep) eqn:E; [done|]. simpl in Hdsep.
  change ((String c d :: dirs) ++ [name]) with (String c d :: (dirs ++ [name])).
  unfold render at 1. rewrite join_cons_char. unfold dirname. rewrite E.
  change (d :: dirs ++ [name]) with ((d :: dirs) ++ [name]).
  assert (Forall (λ s, mem sep s = false) (d :: dirs)) as Hfree.
  { constructor; [done|]. apply kept_no_sep. by eapply Forall_inv_tail. }
  fold (render ((d :: dirs) ++ [name])).
  rewrite render_snoc by done.
  rewrite <-append_assoc, dropTrailing_append by done.
  rewrite append_assoc, <-render_snoc by done.
  rewrite segments_render; [|by destruct dirs|].
  2:{ apply Forall_app. split; [done|]. by repeat constructor. }
  destruct ((d :: dirs) ++ [name]) as [|x [|y l]] eqn:El.
  - done.
  - injection El as _ El. by destruct dirs.
  - rewrite <-El, removelast_snoc. simpl andb. cbv iota.
    unfold render. by rewrite <-join_cons_char.
Qed.

Lemma render_snoc_split l name : ∃ pre, render (l ++ [name]) = pre +:+ name.
Proof.
  destruct l as [|s l]; [by exists ""|].
  exists (render (s :: l) +:+ "/"). by rewrite render_snoc, append_assoc.
Qed.

Lemma dropTrailing_render l name :
  name ≠ "" → mem sep name = false →
  dropTrailing (render (l ++ [name])) = render (l ++ [name]).
Proof.
  intros Hname Hsep. destruct (render_snoc_split l name) as [pre ->].
  by apply dropTrailing_append.
Qed.

Lemma lastSegment_render l name :
  name ≠ "" → mem sep name = false → Forall (λ s, mem sep s = false) l →
  lastSegment (render (l ++ [name])) = name.
Proof.
  intros Hname Hsep Hl. unfold lastSegment.
  rewrite dropTrailing_render, segments_render, last_snoc by
    (done || (by destruct l) || (apply Forall_app; by repeat constructor)).
  done.
Qed.

(** The base name of a path whose last segment is [stem +:+ suffix]. *)
Lemma basename_render l stem suffix :
  suffix ≠ "" → stem ≠ "" → mem sep (stem +:+ suffix) = false →
  Forall (λ s, mem sep s = false) l →
  basename (render (l ++ [stem +:+ suffix])) suffix = stem.
Proof.
  intros Hsuffix Hstem Hsep Hl.
  assert (stem +:+ suffix ≠ "") as Hname by (by destruct stem).
  unfold basename. rewrite lastSegment_render by done.
  destruct (render_snoc_split l (stem +:+ suffix)) as [pre Hpre].
  assert (String.length suffix < String.length (render (l ++ [stem +:+ suffix]))) as Hlen.
  { rewrite Hpre, !length_append. destruct stem; [done|]. simpl. lia. }
  apply String.eqb_neq in Hsuffix as ->.
  apply Nat.ltb_ge in Hlen as Hlen'. rewrite (proj2 (Nat.ltb_ge _ _)) by lia.
  assert (String.eqb suffix (render (l ++ [stem +:+ suffix])) = false) as ->.
  { apply String.eqb_neq. intros H. rewrite <-H in Hlen. lia. }
  simpl orb. cbv iota. rewrite stripSuffix_append. by destruct stem.
Qed.

Lemma kept_last_nonempty segs :
  segs ≠ [] → Forall kept segs →
  ∃ l name, segs = l ++ [name] ∧ name ≠ "" ∧ mem sep name = false.
Proof.
  intros Hne Hall. destruct (exists_last Hne) as (l & name & ->).
  apply Forall_app in Hall as [_ Hname].
  apply Forall_inv in Hname as (? & _ & _ & ?). by exists l, name.
Qed.

(** [normalize] leaves a relative path of plain segments as it is. *)
Lemma normalize_render segs :
  segs ≠ [] → Forall kept segs → normalize (render segs) = render segs.
Proof.
  intros Hne Hall.
  assert (render segs ≠ "") as Hr.
  { destruct segs as [|s l]; [done|]. apply render_nonempty.
    by apply Forall_inv in Hall as (? & _). }
  assert (isAbsolute (render segs) = false) as Habs.
  { destruct segs as [|s l]; [done|].
    apply Forall_inv in Hall as (? & _ & _ & ?). by apply isAbsolute_render. }
  unfold normalize, normalizeString. rewrite Habs.
  apply String.eqb_neq in Hr. rewrite Hr.
  rewrite segments_render by (done || by apply kept_no_sep).
  unfold normalizeSegments.
  rewrite normalize_fold_kept, app_nil_r, rev_involutive, Hr by done.
  destruct (kept_last_nonempty segs Hne Hall) as (l' & name & -> & Hname & Hnsep).
  destruct (render_snoc_split l' name) as [pre ->].
  by rewrite endsWith_sep_append.
Qed.

(** [join(dirname(relativePath), name)] puts the name back under the
    directory of the relative path; at the top the directory is [.], which
    [join] drops. *)
Lemma join_dot name : kept name → join ["."; name] = name.
Proof.
  intros (Hname & Hdot & Hdots & Hsep). unfold join.
  rewrite filter_cons_True by done. rewrite filter_cons_True by done.
  rewrite filter_nil. change (Str.join "/" ["."; name]) with ("./" +:+ name).
  unfold normalize, normalizeString.
  rewrite endsWith_sep_append by done.
  change ("./" +:+ name) with ("." +:+ String sep name).
  unfold segments. rewrite split_append_any, (split_no_mem _ name) by done.
  change (split sep ".") with ["."].
  change (isAbsolute ("." +:+ String sep name)) with false.
  change (String.eqb ("." +:+ String sep name) "") with false.
  unfold normalizeSegments. cbn [fold_left app negb].
  change (normalizeStep true [] ".") with (@nil string).
  rewrite normalizeStep_kept by done. cbn [rev app render Str.join String.concat].
  apply String.eqb_neq in Hname as ->. done.
Qed.

Lemma join_render dirs name :
  dirs ≠ [] → Forall kept dirs → kept name →
  join [render dirs; name] = render (dirs ++ [name]).
Proof.
  intros Hne Hall Hname. unfold join.
  assert (render dirs ≠ "") as Hr.
  { destruct dirs as [|d dirs]; [done|]. apply render_nonempty.
    by apply Forall_inv in Hall as (? & _). }
  rewrite filter_cons_True by done.
  rewrite filter_cons_True by apply Hname.
  rewrite filter_nil. change (Str.join "/" [render dirs; name]) with (render dirs +:+ "/" +:+ name).
  rewrite <-render_snoc by done.
  apply normalize_render; [by destruct dirs|].
  apply Forall_app. split; [done|]. by constructor.
Qed.

End PathFacts.

(** ** The two patterns of the module *)

Module GlobFacts.
Import Str StrFacts Path PathFacts Glob.

Lemma wildcard_star pattern name :
  wildcard (String "*" pattern) name =
  wildcard pattern name ||
  match name with "" => false | String _ name' => wildcard (String "*" pattern) name' end.
Proof. by destruct name. Qed.

Lemma wildcard_char c pattern name :
  Ascii.eqb c "*" = false →
  wildcard (String c pattern) name =
  match name with "" => false | String d name' => Ascii.eqb d c && wildcard pattern name' end.
Proof. intros H. simpl. by rewrite H. Qed.

(** A pattern without [*] matches itself only. *)
Lemma wildcard_literal pattern name :
  mem "*" pattern = false → wildcard pattern name = String.eqb name pattern.
Proof.
  revert name. induction pattern as [|c pattern IH]; intros name; [done|].
  simpl mem. destruct (Ascii.eqb c "*") eqn:E; [done|]. intros H. simpl in H.
  rewrite wildcard_char by done. destruct name as [|d name]; [done|].
  rewrite IH by done. simpl. by destruct (Ascii.eqb d c).
Qed.

(** [*] followed by a literal matches the names that end in the literal. *)
Lemma wildcard_star_literal literal name :
  mem "*" literal = false →
  wildcard (String "*" literal) name = endsWith name literal.
Proof.
  intros H. unfold endsWith. induction name as [|d name IH].
  - rewrite wildcard_star, wildcard_literal, orb_false_r by done.
    unfold stripSuffix. destruct (String.eqb "" literal); by rewrite ?bool_decide_eq_true_2, ?bool_decide_eq_false_2 by (by eexists || by intros [? ?]).
  - rewrite wildcard_star, wildcard_literal, IH, stripSuffix_cons by done.
    destruct (String.eqb (String d name) literal).
    + rewrite orb_true_l. symmetry. apply bool_decide_eq_true_2. by eexists.
    + rewrite orb_false_l. apply bool_decide_ext. by rewrite fmap_is_Some.
Qed.

Lemma matchParts_star parts names :
  matchParts (GlobStar :: parts) names =
  matchParts parts names ||
  match names with
  | [] => false
  | name :: names' => visible name && matchParts (GlobStar :: parts) names'
  end.
Proof. by destruct names. Qed.

Lemma visible_kept name :
  visible name = true → mem sep name = false → kept name.
Proof.
  unfold visible, hidden. intros H Hsep.
  apply andb_true_iff in H as [H1 H2].
  apply negb_true_iff in H1, H2. apply String.eqb_neq in H1.
  repeat split; [done| | |done]; intros ->; done.
Qed.

Lemma plainName_kept name : plainName name = true → kept name.
Proof.
  unfold plainName. intros H. apply andb_true_iff in H as [H1 H2].
  apply negb_true_iff in H2. by apply visible_kept.
Qed.

Lemma plainName_stem stem extension :
  Str.startsWithChar "." extension = true →
  plainName (stem +:+ extension) = true →
  plainName stem = true.
Proof.
  intros Hext H. unfold plainName, visible, hidden in *.
  destruct stem as [|c stem].
  - rewrite append_empty_l, Hext in H. simpl in H. by rewrite andb_false_r in H.
  - rewrite append_cons in H. simpl in *. rewrite mem_append in H.
    destruct (Ascii.eqb c "."), (Ascii.eqb c sep), (mem sep stem); done.
Qed.

Lemma matchName_literal literal name :
  mem "*" literal = false →
  matchName literal name = true → name = literal.
Proof.
  intros H. unfold matchName. rewrite wildcard_literal by done.
  intros Hm. apply andb_true_iff in Hm as [_ Hm]. by apply String.eqb_eq.
Qed.

Lemma matchName_star_literal literal name :
  mem "*" literal = false →
  matchName (String "*" literal) name = visible name && endsWith name literal.
Proof.
  intros H. unfold matchName, visible, hidden.
  rewrite wildcard_star_literal by done. simpl (startsWithChar "." (String "*" _)).
  by rewrite orb_false_r.
Qed.

(** [**] followed by a name pattern: directories with visible names, then
    a name that the pattern matches. *)
Lemma matchParts_star_name pattern names :
  matchParts [GlobStar; Name pattern] names = true ↔
  ∃ dirs name,
    names = dirs ++ [name] ∧ Forall (λ dir, visible dir = true) dirs ∧
    matchName pattern name = true.
Proof.
  induction names as [|first names IH]; rewrite matchParts_star.
  - simpl. split; [done|]. intros (dirs & name & H & _). by destruct dirs.
  - rewrite orb_true_iff, andb_true_iff, IH. split.
    + intros [H|[Hfirst (dirs & name & -> & Hdirs & Hname)]].
      * simpl in H. destruct names; [|by rewrite andb_false_r in H].
        rewrite andb_true_r in H. by exists [], first.
      * exists (first :: dirs), name. split; [done|]. split; [by constructor|done].
    + intros (dirs & name & H & Hdirs & Hname).
      destruct dirs as [|dir dirs]; simplify_eq/=.
      * left. by rewrite Hname.
      * right. apply Forall_cons in Hdirs as [? ?]. split; [done|]. by exists dirs, name.
Qed.

Lemma matchParts_name pattern parts name names :
  matchParts (Name pattern :: parts) (name :: names) =
  matchName pattern name && matchParts parts names.
Proof. reflexivity. Qed.

Lemma plainName_split name :
  plainName name = true ↔ visible name = true ∧ mem sep name = false.
Proof. unfold plainName. by rewrite andb_true_iff, negb_true_iff. Qed.

Lemma segments_no_sep path : Forall (λ s, mem sep s = false) (segments path).
Proof. apply split_pieces. Qed.

Lemma render_segments path : render (segments path) = path.
Proof. apply (join_split sep). Qed.

(** The script pattern selects the entries directly in [src/scripts] whose
    plain name ends in [.ts]. *)
Lemma matches_scriptPattern path :
  matches scriptPattern path = true ↔ isScript path.
Proof.
  unfold matches.
  change (parse scriptPattern) with [Name "src"; Name "scripts"; Name "*.ts"].
  split.
  - pose proof (segments_no_sep path) as Hsep.
    pose proof (render_segments path) as Hpath.
    destruct (segments path) as [|a [|b [|c [|? ?]]]]; try done.
    + rewrite matchParts_name. by rewrite andb_false_r.
    + rewrite !matchParts_name. by rewrite !andb_false_r.
    + rewrite !matchParts_name, !andb_true_iff. intros (Ha & Hb & Hc & _).
      apply matchName_literal in Ha as ->; [|done].
      apply matchName_literal in Hb as ->; [|done].
      rewrite matchName_star_literal in Hc by done.
      apply andb_true_iff in Hc as [Hvis Hend].
      apply endsWith_spec in Hend as [stem ->].
      exists stem. split; [by rewrite <-Hpath|].
      apply plainName_split. split; [done|].
      by apply Forall_inv_tail, Forall_inv_tail, Forall_inv in Hsep.
    + rewrite !matchParts_name. simpl (matchParts [] _). by rewrite !andb_false_r.
  - intros (stem & -> & Hplain). apply plainName_split in Hplain as [Hvis Hsep].
    assert (segments ("src/scripts/" +:+ stem +:+ scriptExtension)
            = ["src"; "scripts"; stem +:+ scriptExtension]) as ->.
    { change ("src/scripts/" +:+ ?x) with ("src" +:+ String sep ("scripts" +:+ String sep x)).
      unfold segments. by rewrite !split_append_any, (split_no_mem _ (_ +:+ _)). }
    rewrite !matchParts_name, matchName_star_literal, Hvis by done.
    rewrite (proj2 (endsWith_spec _ _)) by (by exists stem). done.
Qed.

(** The document pattern selects the entries below [src], through
    directories with plain names, whose plain name ends in [.html]. *)
Lemma matches_documentPattern path :
  matches documentPattern path = true ↔ isDocument path.
Proof.
  unfold matches.
  change (parse documentPattern) with [Name "src"; GlobStar; Name "*.html"].
  split.
  - pose proof (segments_no_sep path) as Hsep.
    pose proof (render_segments path) as Hpath.
    destruct (segments path) as [|a names]; [done|].
    rewrite matchParts_name, andb_true_iff, matchParts_star_name.
    intros (Ha & dirs & name & -> & Hdirs & Hname).
    apply matchName_literal in Ha as ->; [|done].
    rewrite matchName_star_literal in Hname by done.
    apply andb_true_iff in Hname as [Hvis Hend].
    apply endsWith_spec in Hend as [stem ->].
    apply Forall_inv_tail, Forall_app in Hsep as [Hsep1 Hsep2].
    exists dirs, stem. split; [done|]. split.
    + apply Forall_forall. intros dir Hdir. apply plainName_split. split.
      * by eapply Forall_forall in Hdirs.
      * by eapply Forall_forall in Hsep1.
    + apply plainName_split. split; [done|]. by apply Forall_inv in Hsep2.
  - intros (dirs & stem & -> & Hdirs & Hplain).
    apply plainName_split in Hplain as [Hvis Hsep].
    rewrite segments_render; [|done|].
    + rewrite matchParts_name, andb_true_iff. split; [done|].
      apply matchParts_star_name. exists dirs, (stem +:+ documentExtension).
      split; [done|]. split.
      * eapply Forall_impl; [done|]. intros dir Hdir. by apply plainName_split in Hdir as [? ?].
      * rewrite matchName_star_literal, Hvis by done.
        by rewrite (proj2 (endsWith_spec _ _)) by (by exists stem).
    + constructor; [done|]. apply Forall_app. split.
      * eapply Forall_impl; [done|]. intros dir Hdir. by apply plainName_split in Hdir as [? ?].
      * by constructor.
Qed.

End GlobFacts.

(** ** Discovery *)

Section Discovery.
Variable __dirname : string.
Variable host : Host.

Let scripts := globSync host scriptPattern.
Let documents := globSync host documentPattern.

Lemma entry_generateParameters :
  entry (generateParameters __dirname host) = fold_left addScript scripts ∅.
Proof. reflexivity. Qed.

Lemma push_fold {A B} (f : A → B) (l : list A) (init : list B) :
  fold_left (λ acc x, acc ++ [f x]) l init = init ++ (f <$> l).
Proof.
  revert init. induction l as [|x l IH]; intros init; simpl.
  - by rewrite app_nil_r.
  - by rewrite IH, <-app_assoc.
Qed.

(** The second loop pushes one page per document, in the order of the glob. *)
Lemma htmlPages_generateParameters :
  htmlPages (generateParameters __dirname host) = pageOf host <$> documents.
Proof. unfold generateParameters. simpl htmlPages. apply (push_fold (pageOf host)). Qed.

Lemma size_setProperty key value (object : gmap string string) :
  size (setProperty key value object) ≤ S (size object).
Proof.
  unfold setProperty. destruct (String.eqb key "__proto__"); [lia|].
  rewrite map_size_insert. destruct (object !! key); simpl; lia.
Qed.

Lemma size_addScripts l (entry : gmap string string) :
  size (fold_left addScript l entry) ≤ size entry + length l.
Proof.
  revert entry. induction l as [|p l IH]; intros entry; simpl; [lia|].
  etrans; [apply IH|]. unfold addScript.
  pose proof (size_setProperty (Path.basename p scriptExtension) ("./" +:+ p) entry).
  lia.
Qed.

(** Every pair of the entry mapping comes from a script. *)
Lemma lookup_addScripts l (entry : gmap string string) name value :
  fold_left addScript l entry !! name = Some value →
  entry !! name = Some value ∨
  ∃ path, path ∈ l ∧ name = Path.basename path scriptExtension ∧
          value = "./" +:+ path ∧ name ≠ "__proto__".
Proof.
  revert entry. induction l as [|p l IH]; intros entry; simpl; [by left|].
  intros H. apply IH in H as [H|(path & Hin & Hrest)].
  - unfold addScript, setProperty in H.
    destruct (String.eqb (Path.basename p scriptExtension) "__proto__") eqn:E; [by left|].
    apply String.eqb_neq in E.
    destruct (decide (Path.basename p scriptExtension = name)) as [<-|Hne].
    + rewrite lookup_insert_eq in H. injection H as <-.
      right. exists p. split; [by left|done].
    + rewrite lookup_insert_ne in H by done. by left.
  - right. exists path. split; [by right|done].
Qed.

(** A script keeps its pair when no other script of the list has its name. *)
Lemma lookup_addScripts_unique l (entry : gmap string string) path :
  Path.basename path scriptExtension ≠ "__proto__" →
  (∀ other, other ∈ l →
     Path.basename other scriptExtension = Path.basename path scriptExtension →
     other = path) →
  path ∈ l ∨ entry !! Path.basename path scriptExtension = Some ("./" +:+ path) →
  fold_left addScript l entry !! Path.basename path scriptExtension
    = Some ("./" +:+ path).
Proof.
  intros Hproto. revert entry.
  induction l as [|p l IH]; intros entry Huniq Hin; simpl.
  - destruct Hin as [Hin|?]; [|done]. by apply elem_of_nil in Hin.
  - apply IH; [intros other ?; apply Huniq; by right|].
    destruct (decide (path ∈ l)) as [?|Hnotin]; [by left|]. right.
    unfold addScript, setProperty.
    destruct (decide (Path.basename p scriptExtension
                      = Path.basename path scriptExtension)) as [Heq|Hne].
    + assert (p = path) as -> by (apply Huniq; [by left|done]).
      apply String.eqb_neq in Hproto as ->. by rewrite lookup_insert_eq.
    + destruct Hin as [Hin|Hin].
      { apply elem_of_cons in Hin as [->|?]; done. }
      destruct (String.eqb (Path.basename p scriptExtension) "__proto__"); [done|].
      by rewrite lookup_insert_ne.
Qed.

End Discovery.

(** * The claims

    ** Configuration assembly *)

(** C1, as stated, fails: with one extra plugin and empty parameters the
    last plugin of the list is the SubresourceIntegrityPlugin, so the extra
    plugin does not occupy the trailing position. *)
Lemma extra_plugin_is_not_trailing :
  let parameters := {| entry := ∅; htmlPages := []; aliases := ∅ |} in
  let extraPlugins := [Instance (OtherPlugin "BannerPlugin")] in
  ¬ ∃ generated,
      Configuration.plugins
        (makeConfigWithParameters "/work" (treeHost "/work" []) parameters extraPlugins)
      = generated ++ extraPlugins.
Proof.
  intros parameters extraPlugins [generated H].
  apply (f_equal last) in H. subst extraPlugins.
  rewrite last_snoc in H. discriminate H.
Qed.

(** C1, amended: for every parameters value and every list of extra
    plugins, the extra plugins occupy the leading positions of the plugin
    list in their given order, and the generated plugins follow them:
    ProvidePlugin, LimitChunkCountPlugin, RemoveEmptyScriptsPlugin,
    MiniCssExtractPlugin, one HtmlWebpackPlugin per page in the order of the
    pages, SubresourceIntegrityPlugin. *)
Theorem extra_plugins_lead __dirname host parameters extraPlugins :
  let plugins :=
    Configuration.plugins
      (makeConfigWithParameters __dirname host parameters extraPlugins) in
  take (length extraPlugins) plugins = extraPlugins ∧
  drop (length extraPlugins) plugins =
    leadingPlugins
    ++ ((λ page, Instance (HtmlWebpackPlugin page)) <$> htmlPages parameters)
    ++ [Instance SubresourceIntegrityPlugin] ∧
  ∀ i plugin, extraPlugins !! i = Some plugin → plugins !! i = Some plugin.
Proof.
  simpl. split; [by rewrite take_app_length|].
  split; [by rewrite drop_app_length|].
  intros i plugin H. by apply lookup_app_l_Some.
Qed.

(** C4: with an empty entry mapping, no page and no extra plugin, the
    configuration has the empty entry mapping, exactly the five fixed
    plugins and no HtmlWebpackPlugin, and the six loader rules. *)
Theorem empty_parameters_configuration __dirname host parameters :
  entry parameters = ∅ →
  htmlPages parameters = [] →
  let config := makeConfigWithParameters __dirname host parameters [] in
  Configuration.entry config = ∅ ∧
  Configuration.plugins config =
    leadingPlugins ++ [Instance SubresourceIntegrityPlugin] ∧
  length (Configuration.plugins config) = 5 ∧
  Forall (λ plugin, isHtmlWebpackPlugin plugin = false) (Configuration.plugins config) ∧
  Configuration.rules (Configuration.module config) = moduleRules ∧
  ruleTest <$> Configuration.rules (Configuration.module config) = [
    Some {| source := "\.css$"; flags := "" |};
    Some {| source := "\.(woff2?|eot|ttf|otf)$"; flags := "i" |};
    Some {| source := "\.(png|svg|jpg|jpeg|gif|avif)$"; flags := "" |};
    Some {| source := "\.html$"; flags := "" |};
    Some {| source := "\.ts$"; flags := "" |};
    Some {| source := "\.ts$"; flags := "" |}
  ].
Proof.
  intros Hentry Hpages. simpl. rewrite Hentry, Hpages. simpl.
  repeat split; try done. by repeat constructor.
Qed.

Lemma empty_parameters_configuration_witness :
  let parameters := {| entry := ∅; htmlPages := []; aliases := {["lit" := "lit"]} |} in
  let config := makeConfigWithParameters "/work" (treeHost "/work" []) parameters [] in
  entry parameters = ∅ ∧ htmlPages parameters = [] ∧
  Configuration.entry config = ∅ ∧
  length (Configuration.plugins config) = 5.
Proof.
  intros parameters config.
  pose proof (empty_parameters_configuration "/work" (treeHost "/work" []) parameters
                eq_refl eq_refl) as (H1 & _ & H2 & _).
  exact (conj eq_refl (conj eq_refl (conj H1 H2))).
Defined.

(** C10: the configuration carries the caller's entry mapping and alias
    table as they are: the same keys with the same values. *)
Theorem parameters_pass_through __dirname host parameters extraPlugins :
  let config := makeConfigWithParameters __dirname host parameters extraPlugins in
  Configuration.entry config = entry parameters ∧
  Configuration.alias (Configuration.resolve config) = aliases parameters ∧
  (∀ key, Configuration.entry config !! key = entry parameters !! key) ∧
  (∀ key, Configuration.alias (Configuration.resolve config) !! key
          = aliases parameters !! key).
Proof. done. Qed.

(** ** Parameter discovery *)

(** C3: the entry mapping has at most as many pairs as the script pattern
    has matches, and there is exactly one page descriptor per match of the
    document pattern. *)
Theorem discovery_sizes __dirname host :
  let parameters := generateParameters __dirname host in
  size (entry parameters) ≤ length (globSync host scriptPattern) ∧
  length (htmlPages parameters) = length (globSync host documentPattern).
Proof.
  cbv zeta. split.
  - rewrite entry_generateParameters.
    etrans; [apply size_addScripts|]. by rewrite map_size_empty.
  - by rewrite htmlPages_generateParameters, length_fmap.
Qed.

(** A later script with the name of an earlier one overwrites its pair. *)
Lemma later_script_overwrites __dirname workingDirectory earlier later :
  Path.basename later scriptExtension ≠ "__proto__" →
  let host := {| cwd := workingDirectory; globSync _ := earlier ++ [later] |} in
  entry (generateParameters __dirname host) !! Path.basename later scriptExtension
  = Some ("./" +:+ later).
Proof.
  intros Hproto host. rewrite entry_generateParameters. simpl.
  rewrite fold_left_app. simpl. unfold addScript at 1, setProperty.
  apply String.eqb_neq in Hproto as ->. by rewrite lookup_insert_eq.
Qed.

(** C6: when neither pattern has a match, [generateParameters] returns
    parameters with an empty entry mapping, no page and the alias table of
    four keys. *)
Theorem empty_tree_parameters __dirname host :
  globSync host scriptPattern = [] →
  globSync host documentPattern = [] →
  ∃ parameters,
    generateParameters __dirname host = parameters ∧
    entry parameters = ∅ ∧
    htmlPages parameters = [] ∧
    dom (aliases parameters) =
      ({["lit"; "litDecorators"; "altshiftBox"; "altshiftSwitch"]} : gset string).
Proof.
  intros Hscripts Hdocuments. eexists. split; [done|].
  rewrite entry_generateParameters, htmlPages_generateParameters.
  rewrite Hscripts, Hdocuments. split; [done|]. split; [done|].
  unfold generateParameters, aliases. rewrite !dom_insert_L, ?dom_singleton_L, ?dom_empty_L.
  set_solver.
Qed.

Lemma empty_tree_parameters_witness :
  let host := treeHost "/work" ["package.json"; "src"; "src/styles"; "src/styles/main.css"] in
  globSync host scriptPattern = [] ∧
  globSync host documentPattern = [] ∧
  entry (generateParameters "/work" host) = ∅ ∧
  htmlPages (generateParameters "/work" host) = [].
Proof.
  intros host.
  assert (globSync host scriptPattern = []) as Hscripts by reflexivity.
  assert (globSync host documentPattern = []) as Hdocuments by reflexivity.
  destruct (empty_tree_parameters "/work" host Hscripts Hdocuments)
    as (parameters & <- & Hentry & Hpages & _).
  exact (conj Hscripts (conj Hdocuments (conj Hentry Hpages))).
Defined.

(** C9: every page descriptor has exactly one chunk name. *)
Theorem page_has_one_chunk __dirname host :
  Forall (λ page, length (chunks page) = 1)
    (htmlPages (generateParameters __dirname host)).
Proof.
  rewrite htmlPages_generateParameters. apply Forall_fmap.
  by apply Forall_true.
Qed.

(** ** The chunk name of a page *)

Section Pages.
Import Str StrFacts Path PathFacts GlobFacts.

Lemma render_stem dirs stem extension :
  render (dirs ++ [stem +:+ extension]) = render (dirs ++ [stem]) +:+ extension.
Proof.
  destruct dirs as [|dir dirs]; [done|].
  by rewrite !render_snoc, !append_assoc by done.
Qed.

Lemma render_under root dirs name :
  render (root :: dirs ++ [name]) = root +:+ "/" +:+ render (dirs ++ [name]).
Proof. by destruct dirs. Qed.

(** The page of a document: the file name is the path below [src], and the
    chunk name is that path without the extension, its separators replaced
    by underscores. *)
Lemma pageOf_document host dirs stem :
  Forall (λ dir, plainName dir = true) dirs →
  plainName (stem +:+ documentExtension) = true →
  pageOf host (render ("src" :: dirs ++ [stem +:+ documentExtension])) = {|
    template := render ("src" :: dirs ++ [stem +:+ documentExtension]);
    filename := render (dirs ++ [stem]) +:+ documentExtension;
    chunks := [replaceChar "/" "_" (render (dirs ++ [stem]))]
  |}.
Proof.
  intros Hdirs Hname.
  assert (Forall kept dirs) as Hkept.
  { eapply Forall_impl; [done|]. apply plainName_kept. }
  pose proof (plainName_kept _ Hname) as Hkname.
  pose proof (plainName_stem stem documentExtension eq_refl Hname) as Hstem.
  pose proof (plainName_kept _ Hstem) as Hkstem.
  assert (relative (cwd host) "src" (render ("src" :: dirs ++ [stem +:+ documentExtension]))
          = render (dirs ++ [stem]) +:+ documentExtension) as Hrel.
  { rewrite relative_under, render_stem; [done|done| |by destruct dirs].
    apply Forall_app. split; [done|]. by constructor. }
  assert (basename (render ("src" :: dirs ++ [stem +:+ documentExtension])) documentExtension
          = stem) as Hbase.
  { change ("src" :: dirs ++ [stem +:+ documentExtension])
      with (("src" :: dirs) ++ [stem +:+ documentExtension]).
    apply basename_render; [done|apply Hkstem|apply Hkname|].
    constructor; [done|]. by apply kept_no_sep. }
  unfold pageOf. rewrite Hrel, Hbase. f_equal. f_equal. f_equal.
  rewrite <-render_stem.
  destruct dirs as [|dir dirs].
  - rewrite dirname_name by apply Hkname. by apply join_dot.
  - rewrite dirname_render by (done || apply Hkname).
    by apply join_render.
Qed.

End Pages.

(** C2, as stated, fails: the chunk name of [src/sub/index.html] is
    [sub_index], not its relative path [sub/index.html] with the separator
    replaced, which is [sub_index.html]. *)
Lemma chunk_name_is_not_flattened_relative_path :
  let host := treeHost "/work" ["src/sub/index.html"] in
  ¬ Forall2
      (λ path page,
         ∀ relativePath, path = "src/" +:+ relativePath →
           chunks page = [Str.replaceChar "/" "_" relativePath])
      (globSync host documentPattern)
      (htmlPages (generateParameters "/work" host)).
Proof.
  intros host H.
  change (globSync host documentPattern) with ["src/sub/index.html"] in H.
  assert (htmlPages (generateParameters "/work" host)
          = [ {| template := "src/sub/index.html";
                 filename := "sub/index.html";
                 chunks := ["sub_index"] |} ]) as Hpages by (by vm_compute).
  rewrite Hpages in H. apply Forall2_cons_1 in H as [H _].
  specialize (H "sub/index.html" eq_refl). discriminate H.
Qed.

(** C2, amended: for every document found under the source root, the single
    chunk name of its page descriptor is the document's path relative to the
    source root without the extension [.html], with the path separators
    replaced by underscores. *)
Theorem page_chunk_name __dirname workingDirectory tree :
  let host := treeHost workingDirectory tree in
  Forall2
    (λ path page,
       ∃ relativeStem,
         path = "src/" +:+ relativeStem +:+ documentExtension ∧
         template page = path ∧
         filename page = relativeStem +:+ documentExtension ∧
         chunks page = [Str.replaceChar "/" "_" relativeStem])
    (globSync host documentPattern)
    (htmlPages (generateParameters __dirname host)).
Proof.
  intros host. rewrite htmlPages_generateParameters.
  apply Forall2_fmap_r, Forall_Forall2_diag, Forall_forall.
  intros path Hin.
  apply (list_elem_of_filter (λ entry, Glob.matches documentPattern entry = true))
    in Hin as [Hmatch _].
  apply GlobFacts.matches_documentPattern in Hmatch
    as (dirs & stem & -> & Hdirs & Hname).
  exists (Path.render (dirs ++ [stem])). unfold compose.
  rewrite pageOf_document by done. cbn [template filename chunks].
  by rewrite render_under, render_stem.
Qed.

(** ** Which entries of the tree contribute *)

Section Classification.
Import Str StrFacts Path PathFacts GlobFacts.

Lemma append_cancel_r s s' t : s +:+ t = s' +:+ t → s = s'.
Proof.
  intros H. apply (f_equal (stripSuffix t)) in H.
  rewrite !stripSuffix_append in H. by injection H.
Qed.

Lemma basename_script stem :
  plainName (stem +:+ scriptExtension) = true →
  basename ("src/scripts/" +:+ stem +:+ scriptExtension) scriptExtension = stem.
Proof.
  intros Hname.
  pose proof (plainName_kept _ Hname) as Hkname.
  pose proof (plainName_kept _ (plainName_stem stem scriptExtension eq_refl Hname)) as Hkstem.
  change ("src/scripts/" +:+ stem +:+ scriptExtension)
    with (render (["src"; "scripts"] ++ [stem +:+ scriptExtension])).
  apply basename_render; [done|apply Hkstem|apply Hkname|by repeat constructor].
Qed.

Lemma isScript_hasExtension path : isScript path → hasExtension scriptExtension path.
Proof.
  intros (stem & -> & _). apply endsWith_spec.
  exists ("src/scripts/" +:+ stem). by rewrite append_assoc.
Qed.

Lemma isDocument_hasExtension path : isDocument path → hasExtension documentExtension path.
Proof.
  intros (dirs & stem & -> & _). apply endsWith_spec.
  destruct (render_snoc_split ("src" :: dirs) (stem +:+ documentExtension)) as [pre H].
  exists (pre +:+ stem). by rewrite append_assoc.
Qed.

Lemma elem_of_globSync workingDirectory tree pattern path :
  path ∈ globSync (treeHost workingDirectory tree) pattern ↔
  Glob.matches pattern path = true ∧ path ∈ tree.
Proof. apply (list_elem_of_filter (λ entry, Glob.matches pattern entry = true)). Qed.

(** The scripts that contribute a pair. *)
Lemma contributesEntry_iff __dirname workingDirectory tree path :
  contributesEntry (generateParameters __dirname (treeHost workingDirectory tree)) path ↔
  path ∈ tree ∧ isScript path ∧ path ≠ "src/scripts/__proto__.ts".
Proof.
  unfold contributesEntry. rewrite entry_generateParameters. split.
  - intros [name H]. apply lookup_addScripts in H as [H|(p & Hin & -> & Hp & Hproto)].
    { by rewrite lookup_empty in H. }
    apply (inj (String.append "./")) in Hp as <-.
    apply elem_of_globSync in Hin as [Hmatch Hin].
    split; [done|]. split; [by apply matches_scriptPattern|].
    intros ->. by apply Hproto.
  - intros (Hin & Hscript & Hproto).
    exists (basename path scriptExtension).
    destruct Hscript as (stem & -> & Hname).
    apply lookup_addScripts_unique.
    + rewrite basename_script by done. intros ->. by apply Hproto.
    + intros other Hother Hbase. apply elem_of_globSync in Hother as [Hother _].
      apply matches_scriptPattern in Hother as (stem' & -> & Hname').
      rewrite !basename_script in Hbase by done. by subst.
    + left. apply elem_of_globSync. split; [|done].
      apply matches_scriptPattern. by exists stem.
Qed.

(** The documents that contribute a page. *)
Lemma contributesPage_iff __dirname workingDirectory tree path :
  contributesPage (generateParameters __dirname (treeHost workingDirectory tree)) path ↔
  path ∈ tree ∧ isDocument path.
Proof.
  unfold contributesPage. rewrite htmlPages_generateParameters. split.
  - intros (page & Hin & <-). apply list_elem_of_fmap in Hin as (p & -> & Hin).
    apply elem_of_globSync in Hin as [Hmatch Hin].
    split; [done|]. by apply matches_documentPattern.
  - intros [Hin Hdocument]. exists (pageOf (treeHost workingDirectory tree) path).
    split; [|done]. apply list_elem_of_fmap_2, elem_of_globSync.
    split; [|done]. by apply matches_documentPattern.
Qed.

Lemma treeHost_globsTree workingDirectory tree :
  globsTree (treeHost workingDirectory tree) tree.
Proof. by intros pattern. Qed.

Lemma elem_of_globs host tree pattern path :
  globsTree host tree →
  path ∈ globSync host pattern ↔ Glob.matches pattern path = true ∧ path ∈ tree.
Proof.
  intros Hglobs. rewrite (Hglobs pattern).
  apply (list_elem_of_filter (λ entry, Glob.matches pattern entry = true)).
Qed.

(** Two matches of the script pattern with one name are one path. *)
Lemma script_names_distinct path other :
  Glob.matches scriptPattern path = true →
  Glob.matches scriptPattern other = true →
  basename other scriptExtension = basename path scriptExtension →
  other = path.
Proof.
  intros Hpath Hother Hbase.
  apply matches_scriptPattern in Hpath as (stem & -> & Hname).
  apply matches_scriptPattern in Hother as (stem' & -> & Hname').
  rewrite !basename_script in Hbase by done. by subst.
Qed.

(** The scripts that contribute a pair, whatever the order of the glob;
    the script [__proto__.ts] is left aside. *)
Lemma contributesEntry_globs __dirname host tree path :
  globsTree host tree →
  path ≠ "src/scripts/__proto__.ts" →
  contributesEntry (generateParameters __dirname host) path ↔
  path ∈ tree ∧ isScript path.
Proof.
  intros Hglobs Hproto. unfold contributesEntry.
  rewrite entry_generateParameters. split.
  - intros [name H]. apply lookup_addScripts in H as [H|(p & Hin & -> & Hp & _)].
    { by rewrite lookup_empty in H. }
    apply (inj (String.append "./")) in Hp as <-.
    apply (elem_of_globs _ _ _ _ Hglobs) in Hin as [Hmatch Hin].
    split; [done|]. by apply matches_scriptPattern.
  - intros (Hin & Hscript).
    exists (basename path scriptExtension).
    assert (Glob.matches scriptPattern path = true) as Hmatch
      by (by apply matches_scriptPattern).
    apply lookup_addScripts_unique.
    + destruct Hscript as (stem & -> & Hname).
      rewrite basename_script by done. intros ->. by apply Hproto.
    + intros other Hother Hbase.
      apply (elem_of_globs _ _ _ _ Hglobs) in Hother as [Hother _].
      by apply script_names_distinct.
    + left. by apply (elem_of_globs _ _ _ _ Hglobs).
Qed.

(** The documents that contribute a page, whatever the order of the glob. *)
Lemma contributesPage_globs __dirname host tree path :
  globsTree host tree →
  contributesPage (generateParameters __dirname host) path ↔
  path ∈ tree ∧ isDocument path.
Proof.
  intros Hglobs. unfold contributesPage.
  rewrite htmlPages_generateParameters. split.
  - intros (page & Hin & <-). apply list_elem_of_fmap in Hin as (p & -> & Hin).
    apply (elem_of_globs _ _ _ _ Hglobs) in Hin as [Hmatch Hin].
    split; [done|]. by apply matches_documentPattern.
  - intros [Hin Hdocument]. exists (pageOf host path).
    split; [|done]. apply list_elem_of_fmap_2, (elem_of_globs _ _ _ _ Hglobs).
    split; [|done]. by apply matches_documentPattern.
Qed.

End Classification.

(** C5, as stated, fails: a script in a subdirectory of [src/scripts] and
    a script whose name begins with a dot end in [.ts] and lie under
    [src/scripts] but contribute no pair, and a document in a directory
    whose name begins with a dot ends in [.html] and lies under [src] but
    contributes no page. *)
Lemma classification_is_not_by_extension_and_location :
  let tree := [
    "src/index.html"; "src/scripts/main.ts";
    "src/scripts/lib/util.ts"; "src/scripts/.draft.ts";
    "src/.cache/page.html"
  ] in
  let parameters := generateParameters "/work" (treeHost "/work" tree) in
  ¬ scriptByExtensionAndLocation parameters "src/scripts/lib/util.ts" ∧
  ¬ scriptByExtensionAndLocation parameters "src/scripts/.draft.ts" ∧
  ¬ documentByExtensionAndLocation parameters "src/.cache/page.html".
Proof.
  intros tree parameters.
  assert (entry parameters = {["main" := "./src/scripts/main.ts"]}) as Hentry
    by (by vm_compute).
  assert (htmlPages parameters
          = [ {| template := "src/index.html"; filename := "index.html";
                 chunks := ["index"] |} ]) as Hpages by (by vm_compute).
  assert (∀ path, path ≠ "src/scripts/main.ts" → ¬ contributesEntry parameters path)
    as Hnone.
  { intros path Hpath [name H]. rewrite Hentry in H.
    apply lookup_singleton_Some in H as [_ H].
    apply (inj (String.append "./")) in H. by subst. }
  repeat split; intros H.
  - apply (Hnone "src/scripts/lib/util.ts"); [done|]. by apply H.
  - apply (Hnone "src/scripts/.draft.ts"); [done|]. by apply H.
  - destruct (proj2 H) as (page & Hin & Htemplate); [done|].
    rewrite Hpages in Hin. apply list_elem_of_singleton in Hin as ->.
    discriminate Htemplate.
Qed.

(** C5, amended: in a source tree without symbolic links, whatever the
    order in which the globs list their matches, an entry of the tree
    contributes an entry-mapping pair exactly when it lies directly in
    [src/scripts] and its name ends in [.ts] and does not begin with a dot
    (the entry [src/scripts/__proto__.ts] is left aside: nothing is said of
    it); it contributes a page descriptor exactly when its name ends in
    [.html] and does not begin with a dot and it lies under [src] at any
    depth, through directories whose names do not begin with a dot; and an
    entry with any other extension contributes nothing. *)
Theorem classification_of_entries __dirname host tree path :
  globsTree host tree →
  let parameters := generateParameters __dirname host in
  (path ≠ "src/scripts/__proto__.ts" →
     (contributesEntry parameters path ↔ path ∈ tree ∧ isScript path)) ∧
  (contributesPage parameters path ↔ path ∈ tree ∧ isDocument path) ∧
  (¬ hasExtension scriptExtension path → ¬ contributesEntry parameters path) ∧
  (¬ hasExtension documentExtension path → ¬ contributesPage parameters path).
Proof.
  intros Hglobs parameters. subst parameters.
  split; [intros Hproto; by apply contributesEntry_globs|].
  split; [by apply contributesPage_globs|]. split.
  - intros Hext [name H]. rewrite entry_generateParameters in H.
    apply lookup_addScripts in H as [H|(p & Hin & _ & Hp & _)].
    { by rewrite lookup_empty in H. }
    apply (inj (String.append "./")) in Hp as <-.
    apply (elem_of_globs _ _ _ _ Hglobs) in Hin as [Hmatch _].
    by apply Hext, isScript_hasExtension, GlobFacts.matches_scriptPattern.
  - intros Hext H. apply (contributesPage_globs _ _ _ _ Hglobs) in H as (_ & Hdocument).
    by apply Hext, isDocument_hasExtension.
Qed.

Lemma classification_of_entries_witness :
  let tree := [
    "src/index.html"; "src/about/team.html"; "src/scripts/main.ts";
    "src/scripts/lib/util.ts"; "src/.cache/page.html"
  ] in
  let host := {|
    cwd := "/work";
    globSync pattern := reverse (filter (λ path, Glob.matches pattern path = true) tree)
  |} in
  globsTree host tree ∧
  contributesEntry (generateParameters "/work" host) "src/scripts/main.ts" ∧
  contributesPage (generateParameters "/work" host) "src/about/team.html".
Proof.
  intros tree host.
  assert (globsTree host tree) as Hglobs
    by (intros pattern; apply reverse_Permutation).
  split; [exact Hglobs|]. split.
  - destruct (classification_of_entries "/work" host tree "src/scripts/main.ts" Hglobs)
      as (Hentry & _).
    apply Hentry; [done|]. split.
    + apply list_elem_of_In. simpl. tauto.
    + exists "main". by split.
  - destruct (classification_of_entries "/work" host tree "src/about/team.html" Hglobs)
      as (_ & Hpage & _).
    apply Hpage. split.
    + apply list_elem_of_In. simpl. tauto.
    + exists ["about"], "team". split; [done|]. split; [by repeat constructor|done].
Defined.

(** ** Two runs over one tree *)

Section Determinism.
Import Str StrFacts Path PathFacts GlobFacts.






End Determinism.



(** ** The alias table *)

Section Aliases.
Import Str StrFacts Path.

(** Once an absolute argument is met, [resolve] does not look at the
    working directory. *)
Lemma resolveJoin_absolute cwd directory later :
  isAbsolute directory = true →
  resolveJoin (cwd :: directory :: later) = resolveJoin (directory :: later).
Proof.
  intros Habs. cbn [resolveJoin].
  destruct (resolveJoin later) as [resolvedPath [|]]; [done|].
  destruct directory as [|c directory]; [done|].
  change (String.eqb (String c directory) "") with false. cbv iota.
  by rewrite Habs.
Qed.

Lemma resolve_absolute cwd directory path :
  isAbsolute directory = true →
  resolve cwd [directory; path] = resolve directory [path].
Proof.
  intros Habs. unfold resolve, resolveSegments.
  by rewrite resolveJoin_absolute.
Qed.

End Aliases.

(** C7, as stated, fails: when the module was loaded in [/opt/build] and
    [generateParameters] runs in [/home/user/project], [altshiftBox] is a
    path under [/opt/build], not the path resolved against the working
    directory of the call. *)
Lemma alias_is_not_resolved_at_call_time :
  let host := treeHost "/home/user/project" [] in
  let parameters := generateParameters "/opt/build" host in
  aliases parameters !! "altshiftBox" ≠
  Some (Path.resolve (cwd host) ["node_modules/@altshiftab/web_components/dist/box.js"]).
Proof.
  intros host parameters.
  assert (aliases parameters !! "altshiftBox"
          = Some "/opt/build/node_modules/@altshiftab/web_components/dist/box.js") as ->
    by (by vm_compute).
  assert (Path.resolve (cwd host) ["node_modules/@altshiftab/web_components/dist/box.js"]
          = "/home/user/project/node_modules/@altshiftab/web_components/dist/box.js") as ->
    by (by vm_compute).
  discriminate.
Qed.

(** C7, amended: for every source tree and every working directory of the
    call, the alias table is the fixed mapping of the four keys [lit],
    [litDecorators], [altshiftBox] and [altshiftSwitch], where [lit] and
    [litDecorators] map to fixed module names and [altshiftBox] and
    [altshiftSwitch] map to paths resolved against [__dirname], the working
    directory at the time the module was loaded. *)
Theorem aliases_fixed __dirname host :
  Path.isAbsolute __dirname = true →
  let parameters := generateParameters __dirname host in
  aliases parameters = {[
    "lit" := "lit";
    "litDecorators" := "lit/decorators.js";
    "altshiftBox" :=
      Path.resolve __dirname ["node_modules/@altshiftab/web_components/dist/box.js"];
    "altshiftSwitch" :=
      Path.resolve __dirname ["node_modules/@altshiftab/web_components/dist/switch.js"]
  ]} ∧
  dom (aliases parameters) =
    ({["lit"; "litDecorators"; "altshiftBox"; "altshiftSwitch"]} : gset string) ∧
  size (aliases parameters) = 4.
Proof.
  intros Habs parameters.
  assert (dom (aliases parameters) =
    ({["lit"; "litDecorators"; "altshiftBox"; "altshiftSwitch"]} : gset string)) as Hdom.
  { unfold parameters, generateParameters, aliases.
    rewrite !dom_insert_L, dom_singleton_L. set_solver. }
  split; [|split; [done|]].
  - unfold parameters, generateParameters, aliases.
    by rewrite !resolve_absolute.
  - by rewrite <-size_dom, Hdom.
Qed.

Lemma aliases_fixed_witness :
  let host := treeHost "/home/user/project" ["src/index.html"; "src/scripts/main.ts"] in
  Path.isAbsolute "/opt/build" = true ∧
  aliases (generateParameters "/opt/build" host) !! "altshiftSwitch"
  = Some "/opt/build/node_modules/@altshiftab/web_components/dist/switch.js".
Proof.
  intros host.
  destruct (aliases_fixed "/opt/build" host eq_refl) as (Haliases & _).
  split; [reflexivity|]. rewrite Haliases. reflexivity.
Defined.

(** * Further properties of the module

    ** The entry mapping and the pages, for any answers of the globs *)

Section DiscoveryShape.
Import Str StrFacts.
Variable __dirname : string.
Variable host : Host.

Lemma mem_replaceChar c d s :
  c ≠ d → mem c (replaceChar c d s) = false.
Proof.
  intros Hne. induction s as [|e s IH]; [done|]. simpl.
  rewrite IH, orb_false_r. destruct (Ascii.eqb e c) eqn:E; [|done].
  apply Ascii.eqb_neq. congruence.
Qed.

(** X1: every pair of the entry mapping is the name and the dotted path of
    a match of the script pattern, and [__proto__] is never a key. *)
Theorem entry_pairs_come_from_scripts :
  entry (generateParameters __dirname host) !! "__proto__" = None ∧
  map_Forall
    (λ name value,
       ∃ path, path ∈ globSync host scriptPattern ∧
               name = Path.basename path scriptExtension ∧
               value = "./" +:+ path)
    (entry (generateParameters __dirname host)).
Proof.
  rewrite entry_generateParameters. split.
  - destruct (fold_left addScript (globSync host scriptPattern) ∅ !! "__proto__")
      as [value|] eqn:H; [|done].
    apply lookup_addScripts in H as [H|(path & _ & _ & _ & Hproto)]; [|done].
    by rewrite lookup_empty in H.
  - intros name value H.
    apply lookup_addScripts in H as [H|(path & Hin & Hname & Hvalue & _)].
    + by rewrite lookup_empty in H.
    + by exists path.
Qed.

(** X2: a chunk name never contains a path separator. *)
Theorem chunk_has_no_separator :
  Forall (λ page, Forall (λ chunk, mem "/" chunk = false) (chunks page))
    (htmlPages (generateParameters __dirname host)).
Proof.
  rewrite htmlPages_generateParameters. apply Forall_fmap, Forall_true.
  intros path. unfold compose, pageOf. cbn [chunks].
  constructor; [|constructor]. by apply mem_replaceChar.
Qed.

Lemma template_pageOf (paths : list string) :
  template <$> (pageOf host <$> paths) = paths.
Proof.
  rewrite <-list_fmap_compose. rewrite <-(list_fmap_id paths) at 2.
  by apply list_fmap_ext.
Qed.

(** X3: the templates of the pages are the matches of the document
    pattern, in the order of the glob. *)
Theorem templates_are_documents :
  template <$> htmlPages (generateParameters __dirname host)
  = globSync host documentPattern.
Proof. rewrite htmlPages_generateParameters. apply template_pageOf. Qed.

End DiscoveryShape.

(** ** The entry mapping and the pages of a tree *)

Section TreeDiscovery.
Import Str StrFacts Path PathFacts GlobFacts.
Variable __dirname : string.
Variable workingDirectory : string.
Variable tree : list string.

Let host := treeHost workingDirectory tree.
Let parameters := generateParameters __dirname host.

Lemma lookup_entry_of_tree name value :
  entry parameters !! name = Some value ↔
  "src/scripts/" +:+ name +:+ scriptExtension ∈ tree ∧
  plainName (name +:+ scriptExtension) = true ∧
  name ≠ "__proto__" ∧
  value = "./src/scripts/" +:+ name +:+ scriptExtension.
Proof.
  unfold parameters. rewrite entry_generateParameters. split.
  - intros H. apply lookup_addScripts in H as [H|(p & Hin & -> & -> & Hproto)].
    { by rewrite lookup_empty in H. }
    apply elem_of_globSync in Hin as [Hmatch Hin].
    apply matches_scriptPattern in Hmatch as (stem & -> & Hname).
    rewrite basename_script in * by done. done.
  - intros (Hin & Hname & Hproto & ->).
    rewrite <-(basename_script name Hname) at 1.
    apply lookup_addScripts_unique.
    + by rewrite basename_script.
    + intros other Hother Hbase. apply elem_of_globSync in Hother as [Hother _].
      apply matches_scriptPattern in Hother as (stem' & -> & Hname').
      rewrite !basename_script in Hbase by done. by subst.
    + left. apply elem_of_globSync. split; [|done].
      apply matches_scriptPattern. by exists name.
Qed.

(** X5: the entry mapping of a tree has the pair of [name] exactly when
    [src/scripts/name.ts] is an entry of the tree with a plain name other
    than [__proto__.ts], and the value is that path behind [./]. *)
Theorem entry_lookup name value :
  entry parameters !! name = Some value ↔
  "src/scripts/" +:+ name +:+ scriptExtension ∈ tree ∧
  plainName (name +:+ scriptExtension) = true ∧
  name ≠ "__proto__" ∧
  value = "./src/scripts/" +:+ name +:+ scriptExtension.
Proof. apply lookup_entry_of_tree. Qed.

Lemma filter_ext_elem {A} (P Q : A → Prop)
    `{!∀ x, Decision (P x), !∀ x, Decision (Q x)} (l : list A) :
  (∀ x, x ∈ l → P x ↔ Q x) → filter P l = filter Q l.
Proof.
  induction l as [|x l IH]; intros Hiff; [done|].
  rewrite !filter_cons, IH by (intros y ?; apply Hiff; by right).
  destruct (decide (P x)) as [HP|HP], (decide (Q x)) as [HQ|HQ]; try done.
  - destruct HQ. by apply Hiff; [left|].
  - destruct HP. by apply Hiff; [left|].
Qed.

Lemma size_addScripts_distinct l (entry0 : gmap string string) :
  NoDup l →
  (∀ p q, p ∈ l → q ∈ l →
     basename p scriptExtension = basename q scriptExtension → p = q) →
  (∀ p, p ∈ l → entry0 !! basename p scriptExtension = None) →
  size (fold_left addScript l entry0) =
  size entry0 + length (filter (λ p, basename p scriptExtension ≠ "__proto__") l).
Proof.
  intros Hnodup. revert entry0.
  induction Hnodup as [|p l Hnotin _ IH]; intros entry0 Hinj Hfresh; simpl; [lia|].
  assert (∀ p q, p ∈ l → q ∈ l →
            basename p scriptExtension = basename q scriptExtension → p = q) as Hinj'
    by (intros ?? ?? ?; apply Hinj; by (right || done)).
  rewrite filter_cons. unfold addScript at 2, setProperty.
  destruct (String.eqb (basename p scriptExtension) "__proto__") eqn:E.
  - apply String.eqb_eq in E. rewrite decide_False by (by intros ?).
    apply IH; [done|]. intros q ?. apply Hfresh. by right.
  - apply String.eqb_neq in E. rewrite decide_True by done.
    rewrite IH; [|done|].
    + rewrite map_size_insert_None by (apply Hfresh; by left). simpl. lia.
    + intros q Hq. rewrite lookup_insert_ne; [apply Hfresh; by right|].
      intros Heq. apply Hnotin. by rewrite (Hinj p q) by (by left || by right || done).
Qed.

(** X6: in a tree whose entries are distinct no two scripts share a name:
    the entry mapping has one pair per match of the script pattern other
    than [src/scripts/__proto__.ts]. *)
Theorem entry_size_of_tree :
  NoDup tree →
  size (entry parameters) =
  length (filter (λ path, path ≠ "src/scripts/__proto__.ts")
                 (globSync host scriptPattern)).
Proof.
  intros Hnodup. unfold parameters. rewrite entry_generateParameters.
  assert (∀ p, p ∈ globSync host scriptPattern →
            ∃ stem, p = "src/scripts/" +:+ stem +:+ scriptExtension ∧
                    basename p scriptExtension = stem) as Hscripts.
  { intros p Hp. apply elem_of_globSync in Hp as [Hp _].
    apply matches_scriptPattern in Hp as (stem & -> & Hname).
    exists stem. by rewrite basename_script. }
  rewrite size_addScripts_distinct.
  - rewrite map_size_empty, Nat.add_0_l. f_equal. apply filter_ext_elem.
    intros p Hp. destruct (Hscripts p Hp) as (stem & Hpath & Hbase).
    rewrite Hbase. split.
    + intros Hne Hproto. apply Hne. rewrite Hproto in Hbase. by vm_compute in Hbase.
    + intros Hne Hproto. apply Hne. by rewrite Hpath, Hproto.
  - by apply NoDup_filter.
  - intros p q Hp Hq Hbase.
    destruct (Hscripts p Hp) as (stem & -> & Hp'), (Hscripts q Hq) as (stem' & -> & Hq').
    by rewrite Hp', Hq' in Hbase; subst.
  - intros p _. apply lookup_empty.
Qed.

(** The page of a document is written below [src] at the place of its
    template. *)
Lemma template_of_filename path :
  path ∈ globSync host documentPattern →
  path = "src/" +:+ filename (pageOf host path).
Proof.
  intros Hin. apply elem_of_globSync in Hin as [Hmatch _].
  apply matches_documentPattern in Hmatch as (dirs & stem & -> & Hdirs & Hname).
  rewrite pageOf_document by done. cbn [filename].
  by rewrite render_under, render_stem.
Qed.

(** X7: in a tree whose entries are distinct the pages have distinct file
    names, so no page overwrites another. *)
Theorem filenames_are_distinct :
  NoDup tree → NoDup (filename <$> htmlPages parameters).
Proof.
  intros Hnodup. unfold parameters.
  rewrite htmlPages_generateParameters, <-list_fmap_compose.
  apply NoDup_fmap_2_strong; [|by apply NoDup_filter].
  intros p q Hp Hq Heq. unfold compose in Heq.
  rewrite (template_of_filename p Hp), (template_of_filename q Hq).
  by rewrite Heq.
Qed.

End TreeDiscovery.

Lemma entry_size_of_tree_witness :
  let tree := ["src/index.html"; "src/scripts/main.ts"; "src/scripts/__proto__.ts";
               "src/scripts/admin.ts"; "src/scripts/lib/util.ts"] in
  NoDup tree ∧
  size (entry (generateParameters "/work" (treeHost "/work" tree))) = 2.
Proof.
  intros tree.
  assert (NoDup tree) as Hnodup by (by apply (bool_decide_eq_true_1 (NoDup tree)); vm_compute).
  split; [exact Hnodup|].
  exact (entry_size_of_tree "/work" "/work" tree Hnodup).
Defined.

Lemma filenames_are_distinct_witness :
  let tree := ["src/index.html"; "src/about/index.html"; "src/scripts/main.ts"] in
  NoDup tree ∧
  NoDup (filename <$> htmlPages (generateParameters "/work" (treeHost "/work" tree))).
Proof.
  intros tree.
  assert (NoDup tree) as Hnodup by (by apply (bool_decide_eq_true_1 (NoDup tree)); vm_compute).
  exact (conj Hnodup (filenames_are_distinct "/work" "/work" tree Hnodup)).
Defined.

(** ** Pages and their scripts *)

Section PageScripts.
Import Str StrFacts Path PathFacts GlobFacts.
Variable __dirname : string.
Variable workingDirectory : string.
Variable tree : list string.

Let host := treeHost workingDirectory tree.
Let parameters := generateParameters __dirname host.

Lemma plainName_head name :
  plainName name = true →
  ∃ c rest, name = String c rest ∧ Ascii.eqb c "." = false ∧ Ascii.eqb c sep = false.
Proof.
  intros H. apply plainName_split in H as [Hvis Hsep].
  destruct name as [|c rest]; [done|]. exists c, rest.
  unfold Glob.visible, Glob.hidden in Hvis. simpl in Hvis, Hsep.
  destruct (Ascii.eqb c "."), (Ascii.eqb c sep); done.
Qed.

(** The chunk name of a document is the plain name of a script. *)
Lemma chunk_is_plainName dirs stem :
  Forall (λ dir, plainName dir = true) dirs →
  plainName stem = true →
  plainName (replaceChar "/" "_" (render (dirs ++ [stem])) +:+ scriptExtension) = true.
Proof.
  intros Hdirs Hstem. apply plainName_split. split.
  - assert (∃ first others, dirs ++ [stem] = first :: others ∧ plainName first = true)
      as (first & others & -> & Hfirst).
    { destruct dirs as [|dir dirs]; [by exists stem, []|].
      apply Forall_cons in Hdirs as [? _]. by exists dir, (dirs ++ [stem]). }
    destruct (plainName_head first Hfirst) as (c & rest & -> & Hdot & Hsep).
    unfold render. rewrite join_cons_char. cbn [replaceChar].
    change (Ascii.eqb c "/") with (Ascii.eqb c sep). rewrite Hsep, append_cons.
    unfold Glob.visible, Glob.hidden. simpl. by rewrite Hdot.
  - rewrite mem_append, mem_replaceChar by done. done.
Qed.

(** X8: the chunk of a page names a pair of the entry mapping exactly when
    the tree has the script of that name directly in [src/scripts]. *)
Theorem page_chunk_names_script :
  Forall
    (λ page,
       Forall
         (λ chunk,
            is_Some (entry parameters !! chunk) ↔
            "src/scripts/" +:+ chunk +:+ scriptExtension ∈ tree ∧
            chunk ≠ "__proto__")
         (chunks page))
    (htmlPages parameters).
Proof.
  unfold parameters. rewrite htmlPages_generateParameters.
  apply Forall_fmap, Forall_forall. intros path Hin.
  apply elem_of_globSync in Hin as [Hmatch _].
  apply matches_documentPattern in Hmatch as (dirs & stem & -> & Hdirs & Hname).
  unfold compose. rewrite pageOf_document by done. cbn [chunks].
  constructor; [|constructor].
  pose proof (chunk_is_plainName dirs stem Hdirs
                (plainName_stem stem documentExtension eq_refl Hname)) as Hchunk.
  split.
  - intros [value H]. apply lookup_entry_of_tree in H as (? & _ & ? & _). done.
  - intros [Hin Hproto]. eexists. apply lookup_entry_of_tree. done.
Qed.

End PageScripts.

(** ** The filter of the [link] source *)

Section LinkFilter.

Lemma find_rel_split (attributes : list (gmap string string)) :
  match List.find (λ a, bool_decide (isRel a)) attributes with
  | Some found =>
      ∃ before after,
        attributes = before ++ found :: after ∧
        Forall (λ a, ¬ isRel a) before ∧ isRel found
  | None => Forall (λ a, ¬ isRel a) attributes
  end.
Proof.
  induction attributes as [|a attributes IH]; simpl; [done|].
  destruct (bool_decide (isRel a)) eqn:E.
  - apply bool_decide_eq_true in E. by exists [], attributes.
  - apply bool_decide_eq_false in E.
    destruct (List.find _ attributes) as [found|].
    + destruct IH as (before & after & -> & Hbefore & Hfound).
      exists (a :: before), after. split; [done|]. split; [by constructor|done].
    + by constructor.
Qed.

Lemma split_at_first_rel (before before' : list (gmap string string)) a a' after after' :
  before ++ a :: after = before' ++ a' :: after' →
  Forall (λ b, ¬ isRel b) before → isRel a →
  Forall (λ b, ¬ isRel b) before' → isRel a' →
  a = a'.
Proof.
  revert before'. induction before as [|b before IH]; intros [|b' before'] Heq Hb Ha Hb' Ha';
    simplify_eq/=; try done.
  - by apply Forall_cons in Hb' as [? _].
  - by apply Forall_cons in Hb as [? _].
  - apply Forall_cons in Hb as [_ ?], Hb' as [_ ?]. by eapply IH.
Qed.

(** X9: the filter answers [true] exactly when the first attribute named
    [rel] has the value [icon], [mask-icon] or [apple-touch-icon], whatever
    the tag and the attribute are; later [rel] attributes are not looked
    at, and an element without [rel] is refused. *)
Theorem linkFilter_first_rel tag attribute attributes :
  linkFilter tag attribute attributes = true ↔
  ∃ before rel after value,
    attributes = before ++ rel :: after ∧
    Forall (λ a, ¬ isRel a) before ∧ isRel rel ∧
    rel !! "value" = Some value ∧ value ∈ iconRelations.
Proof.
  unfold linkFilter. fold iconRelations.
  change (λ a : gmap string string, bool_decide (a !! "name" = Some "rel"))
    with (λ a : gmap string string, bool_decide (isRel a)).
  pose proof (find_rel_split attributes) as Hfind.
  rewrite bool_decide_eq_true.
  destruct (List.find _ attributes) as [found|].
  - destruct Hfind as (before & after & -> & Hbefore & Hfound). split.
    + intros Hin. exists before, found, after.
      destruct (found !! "value") as [value|] eqn:Hvalue.
      * by exists value.
      * simpl in Hin.
        repeat (apply elem_of_cons in Hin as [?|Hin]); try done.
        by apply elem_of_nil in Hin.
    + intros (before' & rel & after' & value & Heq & Hbefore' & Hrel & Hvalue & Hin).
      assert (found = rel) as -> by (by eapply split_at_first_rel).
      by rewrite Hvalue.
  - split.
    + intros Hin. simpl in Hin.
      repeat (apply elem_of_cons in Hin as [?|Hin]); try done.
      by apply elem_of_nil in Hin.
    + intros (before & rel & after & value & -> & _ & Hrel & _).
      apply Forall_app in Hfind as [_ Hfind]. by apply Forall_cons in Hfind as [? _].
Qed.

End LinkFilter.

(** ** The plugins of the pages *)

Section PagePlugins.
Variable __dirname : string.
Variable host : Host.

Lemma omap_htmlPluginOptions (pages : list HtmlPage) :
  omap htmlPluginOptions ((λ page, Instance (HtmlWebpackPlugin page)) <$> pages) = pages.
Proof. induction pages as [|page pages IH]; [done|]. simpl. f_equal. exact IH. Qed.

(** X10: the options of the HtmlWebpackPlugins of the configuration, in the
    order of the plugin list, are those that the caller passed among the
    extra plugins followed by the pages of the parameters: every page gets
    one plugin, with the page descriptor as its options. *)
Theorem html_plugins_are_pages parameters extraPlugins :
  omap htmlPluginOptions
    (Configuration.plugins
       (makeConfigWithParameters __dirname host parameters extraPlugins))
  = omap htmlPluginOptions extraPlugins ++ htmlPages parameters.
Proof.
  unfold makeConfigWithParameters. cbn [Configuration.plugins].
  rewrite !omap_app, omap_htmlPluginOptions. simpl. by rewrite app_nil_r.
Qed.

(** X11: [makeConfig] creates the extra plugins, the five fixed plugins and
    one HtmlWebpackPlugin per match of the document pattern, whose templates
    are the matches in the order of the glob. *)
Theorem makeConfig_plugins extraPlugins :
  let plugins := Configuration.plugins (makeConfig __dirname host extraPlugins) in
  length plugins =
    length extraPlugins + 5 + length (globSync host documentPattern) ∧
  template <$> omap htmlPluginOptions plugins =
    (template <$> omap htmlPluginOptions extraPlugins)
    ++ globSync host documentPattern.
Proof.
  intros plugins. subst plugins. unfold makeConfig. split.
  - unfold makeConfigWithParameters. cbn [Configuration.plugins].
    rewrite !length_app, length_fmap, htmlPages_generateParameters, length_fmap.
    simpl. lia.
  - unfold makeConfigWithParameters. cbn [Configuration.plugins].
    rewrite !omap_app, omap_htmlPluginOptions, !fmap_app.
    rewrite htmlPages_generateParameters, template_pageOf. simpl.
    by rewrite app_nil_r.
Qed.

End PagePlugins.

(** ** The earlier revision of the discovery *)

Module EarlierFacts.
Import Str StrFacts Path PathFacts GlobFacts.

Lemma splitLastDot_Some name before extension :
  splitLastDot name = Some (before, extension) → name = before +:+ extension.
Proof.
  revert before. induction name as [|c name IH]; intros before; [done|].
  simpl. destruct (splitLastDot name) as [[before' extension']|].
  - intros [= <- <-]. by rewrite append_cons, (IH before').
  - destruct (Ascii.eqb c "."); [|done]. by intros [= <- <-].
Qed.

Lemma splitLastDot_no_dot name : mem "." name = false → splitLastDot name = None.
Proof.
  induction name as [|c name IH]; [done|]. simpl.
  destruct (Ascii.eqb c "."); [done|]. simpl. intros H. by rewrite IH.
Qed.

Lemma splitLastDot_append stem rest :
  mem "." rest = false →
  splitLastDot (stem +:+ String "." rest) = Some (stem, String "." rest).
Proof.
  intros H. induction stem as [|c stem IH].
  - simpl. by rewrite splitLastDot_no_dot.
  - rewrite append_cons. simpl. by rewrite IH.
Qed.

(** A path with an extension has a last segment that ends in it and is
    longer. *)
Lemma extname_lastSegment path :
  extname path ≠ "" →
  ∃ stem, stem ≠ "" ∧ lastSegment path = stem +:+ extname path.
Proof.
  unfold extname.
  destruct (splitLastDot (lastSegment path)) as [[before extension]|] eqn:E; [|done].
  destruct (String.eqb before "") eqn:Hbefore; [done|].
  destruct (String.eqb (lastSegment path) ".."); [done|]. simpl. intros _.
  exists before. split; [by apply String.eqb_neq|]. by apply splitLastDot_Some.
Qed.

Lemma length_dropTrailing path :
  String.length (dropTrailing path) ≤ String.length path.
Proof.
  induction path as [|c path IH]; [done|]. simpl.
  destruct (dropTrailing path); [destruct (Ascii.eqb c sep)|]; simpl in *; lia.
Qed.

Lemma length_split c s :
  Forall (λ piece, String.length piece ≤ String.length s) (split c s).
Proof.
  induction s as [|d s IH]; simpl; [by repeat constructor|].
  destruct (Ascii.eqb d c).
  - constructor; [simpl; lia|]. eapply Forall_impl; [done|]. simpl. lia.
  - pose proof (split_nonempty c s).
    destruct (split c s) as [|piece pieces]; [done|].
    apply Forall_cons in IH as [? IH]. constructor; [simpl; lia|].
    eapply Forall_impl; [done|]. simpl. lia.
Qed.

Lemma lastSegment_elem path : lastSegment path ∈ segments (dropTrailing path).
Proof.
  unfold lastSegment, segments.
  pose proof (split_nonempty sep (dropTrailing path)) as Hne.
  apply last_is_Some in Hne as [name Hname]. rewrite Hname. simpl.
  by apply last_Some_elem_of.
Qed.

Lemma length_lastSegment path :
  String.length (lastSegment path) ≤ String.length path.
Proof.
  pose proof (lastSegment_elem path) as Hin.
  pose proof (length_split sep (dropTrailing path)) as Hall.
  eapply Forall_forall in Hall; [|done].
  pose proof (length_dropTrailing path). lia.
Qed.

Lemma lastSegment_no_sep path : mem sep (lastSegment path) = false.
Proof.
  pose proof (lastSegment_elem path) as Hin.
  pose proof (split_pieces sep (dropTrailing path)) as Hall.
  by eapply Forall_forall in Hall.
Qed.

(** [basename] removes the extension that [extname] finds. *)
Lemma basename_extname path stem :
  stem ≠ "" → lastSegment path = stem +:+ extname path → extname path ≠ "" →
  basename path (extname path) = stem.
Proof.
  intros Hstem Hlast Hext. unfold basename.
  pose proof (length_lastSegment path) as Hlen.
  rewrite Hlast, length_append in Hlen.
  assert (0 < String.length stem) by (destruct stem; [done|simpl; lia]).
  apply String.eqb_neq in Hext as ->.
  rewrite (proj2 (Nat.ltb_ge _ _)) by lia.
  assert (String.eqb (extname path) path = false) as ->.
  { apply String.eqb_neq. intros H'. apply (f_equal String.length) in H'. lia. }
  simpl orb. cbv iota. rewrite Hlast, stripSuffix_append. by destruct stem.
Qed.

Lemma visit_pages l entry0 pages0 :
  (fold_left Earlier.visit l (entry0, pages0)).2 =
  pages0 ++ (Earlier.pageOf <$> filter (λ path, extname path = ".html") l).
Proof.
  revert entry0 pages0. induction l as [|path l IH]; intros entry0 pages0; simpl.
  - by rewrite app_nil_r.
  - rewrite filter_cons.
    destruct (String.eqb (extname path) ".html") eqn:E.
    + apply String.eqb_eq in E. rewrite decide_True by done.
      rewrite IH, <-app_assoc, E. done.
    + apply String.eqb_neq in E. rewrite decide_False by done.
      destruct (String.eqb (extname path) ".ts"); apply IH.
Qed.

Lemma htmlPages_earlier __dirname host :
  htmlPages (Earlier.generateParameters __dirname host) =
  Earlier.pageOf <$> filter (λ path, extname path = ".html") (globSync host "src/**").
Proof.
  unfold Earlier.generateParameters.
  pose proof (visit_pages (globSync host "src/**") ∅ []) as H.
  destruct (fold_left Earlier.visit (globSync host "src/**") (∅, [])) as [entry0 pages].
  apply H.
Qed.

End EarlierFacts.

(** X12: in the earlier revision every page is written flat into the output
    directory: its file name is the last segment of its template, it has no
    separator, and its only chunk is that name without [.html]. *)
Theorem earlier_pages_are_flat __dirname host :
  Forall
    (λ page,
       ∃ chunk,
         chunk ≠ "" ∧ chunks page = [chunk] ∧
         filename page = chunk +:+ ".html" ∧
         filename page = Path.lastSegment (template page) ∧
         Str.mem "/" (filename page) = false)
    (htmlPages (Earlier.generateParameters __dirname host)).
Proof.
  rewrite EarlierFacts.htmlPages_earlier.
  apply Forall_fmap, Forall_forall. intros path Hin.
  apply list_elem_of_filter in Hin as [Hext _].
  destruct (EarlierFacts.extname_lastSegment path) as (stem & Hstem & Hlast);
    [by rewrite Hext|].
  pose proof (EarlierFacts.basename_extname path stem Hstem Hlast) as Hbase.
  rewrite Hext in Hbase, Hlast. specialize (Hbase ltac:(done)).
  unfold compose, Earlier.pageOf. cbn [template filename chunks]. rewrite Hbase.
  exists stem. repeat split; try done.
  rewrite <-Hlast. apply EarlierFacts.lastSegment_no_sep.
Qed.

(** ** The two revisions on one tree *)

Section Revisions.
Import Str StrFacts Path PathFacts GlobFacts EarlierFacts.

Lemma matchParts_star_only names :
  Glob.matchParts [Glob.GlobStar] names = true ↔
  Forall (λ name, Glob.visible name = true) names.
Proof.
  induction names as [|name names IH]; rewrite matchParts_star; [done|].
  simpl (Glob.matchParts [] _). rewrite orb_false_l, andb_true_iff, IH.
  by rewrite Forall_cons.
Qed.

Lemma extname_document dirs stem :
  Forall (λ dir, plainName dir = true) dirs →
  plainName (stem +:+ documentExtension) = true →
  extname (render ("src" :: dirs ++ [stem +:+ documentExtension])) = documentExtension.
Proof.
  intros Hdirs Hname.
  pose proof (plainName_kept _ Hname) as (Hne & _ & _ & Hsep).
  pose proof (plainName_kept _ (plainName_stem stem documentExtension eq_refl Hname))
    as (Hstem & _).
  unfold extname.
  change ("src" :: dirs ++ [stem +:+ documentExtension])
    with (("src" :: dirs) ++ [stem +:+ documentExtension]).
  rewrite lastSegment_render; [|done|done|].
  2:{ constructor; [done|]. apply kept_no_sep.
      eapply Forall_impl; [done|]. apply plainName_kept. }
  change documentExtension with (String "." "html") at 1.
  rewrite splitLastDot_append by done.
  apply String.eqb_neq in Hstem as ->.
  assert (String.eqb (stem +:+ documentExtension) ".." = false) as ->; [|done].
  apply String.eqb_neq. intros H. apply (f_equal String.length) in H.
  rewrite length_append in H. simpl in H. lia.
Qed.

(** What the earlier revision takes for a document is what the document
    pattern matches. *)
Lemma earlier_document_iff path :
  extname path = ".html" ∧ Glob.matches "src/**" path = true ↔
  Glob.matches documentPattern path = true.
Proof.
  rewrite matches_documentPattern. unfold Glob.matches.
  change (Glob.parse "src/**") with [Glob.Name "src"; Glob.GlobStar]. split.
  - intros [Hext Hmatch].
    pose proof (segments_no_sep path) as Hsep.
    pose proof (render_segments path) as Hpath.
    destruct (segments path) as [|first names]; [done|].
    rewrite matchParts_name in Hmatch. apply andb_true_iff in Hmatch as [Hfirst Hnames].
    apply matchName_literal in Hfirst as ->; [|done].
    apply matchParts_star_only in Hnames.
    apply Forall_cons in Hsep as [_ Hsep].
    assert (Forall (λ name, plainName name = true) names) as Hplain.
    { apply Forall_forall. intros name Hin. apply plainName_split. split.
      - by eapply Forall_forall in Hnames.
      - by eapply Forall_forall in Hsep. }
    destruct names as [|name names _] using rev_ind.
    { subst path. by vm_compute in Hext. }
    apply Forall_app in Hplain as [Hdirs Hname]. apply Forall_inv in Hname.
    pose proof (plainName_kept _ Hname) as (Hne & _ & _ & Hnsep).
    assert (lastSegment path = name) as Hlast.
    { rewrite <-Hpath. change ("src" :: names ++ [name]) with (("src" :: names) ++ [name]).
      apply lastSegment_render; [done|done|].
      constructor; [done|]. apply kept_no_sep.
      eapply Forall_impl; [done|]. apply plainName_kept. }
    destruct (extname_lastSegment path) as (stem & Hstem & Hstem'); [by rewrite Hext|].
    rewrite Hlast, Hext in Hstem'.
    exists names, stem. change documentExtension with ".html". by rewrite <-Hstem'.
  - intros (dirs & stem & -> & Hdirs & Hname). split.
    + by apply extname_document.
    + pose proof (plainName_kept _ Hname) as (_ & _ & _ & Hnsep).
      apply plainName_split in Hname as [Hvis _].
      rewrite segments_render; [|done|].
      * rewrite matchParts_name, andb_true_iff. split; [done|].
        apply matchParts_star_only, Forall_app. split; [|by constructor].
        eapply Forall_impl; [done|]. intros dir Hdir.
        by apply plainName_split in Hdir as [? _].
      * constructor; [done|]. apply Forall_app. split; [|by constructor].
        apply kept_no_sep. eapply Forall_impl; [done|]. apply plainName_kept.
Qed.

Lemma earlier_documents workingDirectory tree :
  filter (λ path, extname path = ".html")
         (globSync (treeHost workingDirectory tree) "src/**")
  = globSync (treeHost workingDirectory tree) documentPattern.
Proof.
  cbn [globSync treeHost].
  rewrite (list_filter_filter (λ path, extname path = ".html")
             (λ path, Glob.matches "src/**" path = true)).
  apply list_filter_iff. intros path. apply earlier_document_iff.
Qed.

Lemma render_no_sep dirs name extension :
  mem sep (render (dirs ++ [name]) +:+ extension) = false → dirs = [].
Proof.
  destruct dirs as [|dir dirs]; [done|].
  change ((dir :: dirs) ++ [name]) with (dir :: (dirs ++ [name])).
  destruct (dirs ++ [name]) as [|next others] eqn:E; [by destruct dirs|].
  rewrite render_cons, !mem_append. simpl. by rewrite orb_true_r.
Qed.

End Revisions.

Section RevisionPages.
Import Str StrFacts Path PathFacts GlobFacts EarlierFacts.

(** The pages that the two revisions push for one document. *)
Lemma pages_of_document host path :
  Glob.matches documentPattern path = true →
  filename (Earlier.pageOf path) = lastSegment (filename (pageOf host path)) ∧
  (mem "/" (filename (pageOf host path)) = false →
   Earlier.pageOf path = pageOf host path).
Proof.
  intros Hmatch.
  apply matches_documentPattern in Hmatch as (dirs & stem & -> & Hdirs & Hname).
  pose proof (plainName_kept _ Hname) as (Hne & _ & _ & Hnsep).
  pose proof (plainName_kept _ (plainName_stem stem documentExtension eq_refl Hname))
    as (Hstem & _ & _ & Hssep).
  assert (Forall (λ s, mem sep s = false) dirs) as Hdsep.
  { apply kept_no_sep. eapply Forall_impl; [done|]. apply plainName_kept. }
  assert (basename (render ("src" :: dirs ++ [stem +:+ documentExtension])) ".html"
          = stem) as Hbase.
  { change ("src" :: dirs ++ [stem +:+ documentExtension])
      with (("src" :: dirs) ++ [stem +:+ documentExtension]).
    apply basename_render; [done|done|done|by constructor]. }
  rewrite pageOf_document by done. unfold Earlier.pageOf. rewrite Hbase.
  cbn [template filename chunks]. split.
  - by rewrite <-render_stem, lastSegment_render.
  - intros Hflat. apply render_no_sep in Hflat as ->. simpl.
    by rewrite replaceChar_no_mem.
Qed.

Lemma template_earlier (paths : list string) :
  template <$> (Earlier.pageOf <$> paths) = paths.
Proof.
  rewrite <-list_fmap_compose. rewrite <-(list_fmap_id paths) at 2.
  by apply list_fmap_ext.
Qed.

(** What the earlier revision takes for a document, for globs that list
    their matches in any order. *)
Lemma earlier_documents_globs host tree :
  globsTree host tree →
  filter (λ path, extname path = ".html") (globSync host "src/**")
  ≡ₚ globSync host documentPattern.
Proof.
  intros Hglobs. rewrite (Hglobs "src/**"), (Hglobs documentPattern).
  pose proof (earlier_documents "" tree) as H. cbn [globSync treeHost] in H.
  by rewrite H.
Qed.

End RevisionPages.

(** X13: on a tree without symbolic links, whatever the order in which each
    glob lists its matches, the earlier revision and the module find the
    same documents: their page lists have the same templates up to order.
    For one document the earlier revision writes the page under the last
    segment of the file name that the module gives it, and the two pages
    are equal when that file name has no directory. *)
Theorem revisions_find_the_same_documents __dirname host tree :
  globsTree host tree →
  let earlier := htmlPages (Earlier.generateParameters __dirname host) in
  let current := htmlPages (generateParameters __dirname host) in
  template <$> earlier ≡ₚ template <$> current ∧
  ∀ earlierPage currentPage,
    earlierPage ∈ earlier → currentPage ∈ current →
    template earlierPage = template currentPage →
    filename earlierPage = Path.lastSegment (filename currentPage) ∧
    (Str.mem "/" (filename currentPage) = false → earlierPage = currentPage).
Proof.
  intros Hglobs earlier current. subst earlier current.
  rewrite EarlierFacts.htmlPages_earlier, htmlPages_generateParameters.
  pose proof (earlier_documents_globs host tree Hglobs) as Hsame.
  split.
  - by rewrite template_earlier, template_pageOf.
  - intros earlierPage currentPage Hearlier Hcurrent Htemplate.
    apply list_elem_of_fmap in Hearlier as (p & -> & Hp).
    apply list_elem_of_fmap in Hcurrent as (q & -> & Hq).
    change (p = q) in Htemplate. subst q.
    apply (elem_of_globs _ _ _ _ Hglobs) in Hq as [Hmatch _].
    by apply pages_of_document.
Qed.

Lemma revisions_find_the_same_documents_witness :
  let tree := ["src"; "src/about.html"; "src/blog"; "src/blog/index.html"] in
  let host := {|
    cwd := "/work";
    globSync pattern :=
      if String.eqb pattern "src/**"
      then reverse (filter (λ path, Glob.matches pattern path = true) tree)
      else filter (λ path, Glob.matches pattern path = true) tree
  |} in
  globsTree host tree ∧
  template <$> htmlPages (Earlier.generateParameters "/work" host)
    = ["src/blog/index.html"; "src/about.html"] ∧
  template <$> htmlPages (generateParameters "/work" host)
    = ["src/about.html"; "src/blog/index.html"] ∧
  template <$> htmlPages (Earlier.generateParameters "/work" host)
    ≡ₚ template <$> htmlPages (generateParameters "/work" host).
Proof.
  intros tree host.
  assert (globsTree host tree) as Hglobs.
  { intros pattern. cbn [globSync host].
    destruct (String.eqb pattern "src/**"); [apply reverse_Permutation|done]. }
  destruct (revisions_find_the_same_documents "/work" host tree Hglobs) as (Hperm & _).
  split; [exact Hglobs|]. split; [by vm_compute|]. split; [by vm_compute|].
  exact Hperm.
Defined.

(** ** The absolute paths of the configuration *)

Section AbsolutePaths.
Import Str StrFacts Path PathFacts.

Lemma render_app segs rest :
  segs ≠ [] → rest ≠ [] →
  render (segs ++ rest) = render segs +:+ "/" +:+ render rest.
Proof.
  intros Hsegs Hrest. destruct rest as [|r rest]; [done|].
  unfold render. rewrite join_app. by destruct segs.
Qed.

(** Resolving plain segments against a normalized absolute directory puts
    them behind the directory. *)
Lemma resolve_under cwd segs rest :
  segs ≠ [] → Forall kept segs → rest ≠ [] → Forall kept rest →
  resolve cwd ["/" +:+ render segs; render rest]
  = "/" +:+ render segs +:+ "/" +:+ render rest.
Proof.
  intros Hsegs Hkept Hrest Hkrest.
  assert (render rest ≠ "") as Hr.
  { destruct rest as [|r rest]; [done|]. apply render_nonempty.
    by apply Forall_inv in Hkrest as (? & _). }
  assert (isAbsolute (render rest) = false) as Hrel.
  { destruct rest as [|r rest]; [done|].
    apply Forall_inv in Hkrest as (? & _ & _ & ?). by apply isAbsolute_render. }
  rewrite resolve_absolute by done.
  unfold resolve, resolveSegments, resolveJoin.
  apply String.eqb_neq in Hr. rewrite Hr, Hrel.
  change (String.eqb ("/" +:+ render segs) "") with false.
  change (isAbsolute ("/" +:+ render segs)) with true. cbv iota. cbn [negb].
  assert (segments (("/" +:+ render segs) +:+ "/" +:+ render rest +:+ "/" +:+ "")
          = "" :: segs ++ rest ++ [""]) as ->.
  { unfold segments.
    change (("/" +:+ render segs) +:+ ?x) with ("" +:+ String sep (render segs +:+ x)).
    change ("/" +:+ ?x) with (String sep x).
    rewrite !split_append_any.
    change (render rest +:+ "/" +:+ "") with (render rest +:+ String sep "").
    rewrite split_append_any. fold (segments (render segs)) (segments (render rest)).
    by rewrite !segments_render by (done || by apply kept_no_sep). }
  unfold normalizeSegments. cbn [fold_left]. rewrite normalizeStep_empty.
  rewrite !fold_left_app, (normalize_fold_kept _ segs), (normalize_fold_kept _ rest) by done.
  cbn [fold_left]. rewrite normalizeStep_empty, app_nil_r, rev_app_distr, !rev_involutive.
  by rewrite render_app.
Qed.

End AbsolutePaths.

(** X14: when the module was loaded in a normalized absolute directory, the
    output directory and the two resolved aliases are that directory
    followed by [/dist] and by the paths under [node_modules], whatever the
    working directory of the call, the tree and the extra plugins. *)
Theorem paths_are_under_dirname segs host extraPlugins :
  segs ≠ [] → Forall Path.kept segs →
  let __dirname := "/" +:+ Path.render segs in
  let parameters := generateParameters __dirname host in
  let config := makeConfigWithParameters __dirname host parameters extraPlugins in
  Configuration.path (Configuration.output config) = __dirname +:+ "/dist" ∧
  Configuration.alias (Configuration.resolve config) !! "altshiftBox"
    = Some (__dirname +:+ "/node_modules/@altshiftab/web_components/dist/box.js") ∧
  Configuration.alias (Configuration.resolve config) !! "altshiftSwitch"
    = Some (__dirname +:+ "/node_modules/@altshiftab/web_components/dist/switch.js").
Proof.
  intros Hsegs Hkept __dirname parameters config.
  assert (∀ rest, rest ≠ [] → Forall Path.kept rest →
            Path.resolve (cwd host) [__dirname; Path.render rest]
            = __dirname +:+ "/" +:+ Path.render rest) as Hresolve.
  { intros rest ? ?. subst __dirname.
    by rewrite resolve_under, StrFacts.append_assoc. }
  assert (∀ s, Path.kept s ↔ s ≠ "" ∧ s ≠ "." ∧ s ≠ ".." ∧ Str.mem Path.sep s = false)
    as Hk by done.
  split; [|split].
  - apply (Hresolve ["dist"]); [done|]. by repeat constructor.
  - unfold config, makeConfigWithParameters, parameters, generateParameters.
    cbn [Configuration.resolve Configuration.alias aliases].
    rewrite lookup_insert_ne, lookup_insert_ne, lookup_insert_eq by done. f_equal.
    apply (Hresolve ["node_modules"; "@altshiftab"; "web_components"; "dist"; "box.js"]);
      [done|]. by repeat constructor.
  - unfold config, makeConfigWithParameters, parameters, generateParameters.
    cbn [Configuration.resolve Configuration.alias aliases].
    rewrite !lookup_insert_ne, lookup_singleton_eq by done. f_equal.
    apply (Hresolve ["node_modules"; "@altshiftab"; "web_components"; "dist"; "switch.js"]);
      [done|]. by repeat constructor.
Qed.

Lemma paths_are_under_dirname_witness :
  let segs := ["home"; "user"; "project"] in
  let host := treeHost "/tmp" ["src/index.html"] in
  segs ≠ [] ∧ Forall Path.kept segs ∧
  Configuration.path
    (Configuration.output (makeConfig "/home/user/project" host []))
  = "/home/user/project/dist".
Proof.
  intros segs host.
  assert (segs ≠ []) as Hsegs by done.
  assert (Forall Path.kept segs) as Hkept by (by repeat constructor).
  destruct (paths_are_under_dirname segs host [] Hsegs Hkept) as (Hpath & _).
  exact (conj Hsegs (conj Hkept Hpath)).
Defined.

(** X15: the file name of a page of a tree is a relative path of plain
    segments: it has no empty segment, no [.] and no [..], so the page is
    written inside the output directory. *)
Theorem filenames_stay_inside __dirname workingDirectory tree :
  Forall
    (λ page, Forall Path.kept (Path.segments (filename page)))
    (htmlPages (generateParameters __dirname (treeHost workingDirectory tree))).
Proof.
  rewrite htmlPages_generateParameters.
  apply Forall_fmap, Forall_forall. intros path Hin.
  apply elem_of_globSync in Hin as [Hmatch _].
  apply GlobFacts.matches_documentPattern in Hmatch
    as (dirs & stem & -> & Hdirs & Hname).
  unfold compose. rewrite pageOf_document by done. cbn [filename].
  assert (Forall Path.kept (dirs ++ [stem +:+ documentExtension])) as Hkept.
  { apply Forall_app. split.
    - eapply Forall_impl; [done|]. apply GlobFacts.plainName_kept.
    - constructor; [|done]. by apply GlobFacts.plainName_kept. }
  rewrite <-render_stem, PathFacts.segments_render;
    [done|by destruct dirs|by apply PathFacts.kept_no_sep].
Qed.

(** ** The scripts of the earlier revision *)

Section EarlierScripts.
Import Str StrFacts Path PathFacts GlobFacts EarlierFacts.

Lemma visit_entry l entry0 pages0 :
  (fold_left Earlier.visit l (entry0, pages0)).1 =
  fold_left addScript (filter (λ path, extname path = ".ts") l) entry0.
Proof.
  revert entry0 pages0. induction l as [|path l IH]; intros entry0 pages0; [done|].
  rewrite filter_cons. cbn [fold_left]. unfold Earlier.visit at 2.
  destruct (String.eqb (extname path) ".html") eqn:E.
  - apply String.eqb_eq in E. rewrite decide_False by (by rewrite E). apply IH.
  - destruct (String.eqb (extname path) ".ts") eqn:E'.
    + apply String.eqb_eq in E'. rewrite decide_True by done.
      cbn [fold_left]. rewrite IH. unfold addScript at 2. by rewrite E'.
    + apply String.eqb_neq in E'. rewrite decide_False by done. apply IH.
Qed.

Lemma entry_earlier __dirname host :
  entry (Earlier.generateParameters __dirname host) =
  fold_left addScript
    (filter (λ path, extname path = ".ts") (globSync host "src/**")) ∅.
Proof.
  unfold Earlier.generateParameters.
  pose proof (visit_entry (globSync host "src/**") ∅ []) as H.
  destruct (fold_left Earlier.visit (globSync host "src/**") (∅, [])) as [entry0 pages].
  apply H.
Qed.

Lemma length_filter_disjoint {A} (P Q : A → Prop)
    `{!∀ x, Decision (P x), !∀ x, Decision (Q x)} (l : list A) :
  (∀ x, P x → Q x → False) →
  length (filter P l) + length (filter Q l) ≤ length l.
Proof.
  intros Hdisjoint. induction l as [|x l IH]; [done|].
  rewrite !filter_cons.
  destruct (decide (P x)) as [HP|HP], (decide (Q x)) as [HQ|HQ]; simpl; try lia.
  destruct (Hdisjoint x HP HQ).
Qed.

Lemma extname_script stem :
  plainName (stem +:+ scriptExtension) = true →
  extname ("src/scripts/" +:+ stem +:+ scriptExtension) = scriptExtension.
Proof.
  intros Hname.
  pose proof (plainName_kept _ Hname) as (Hne & _ & _ & Hsep).
  pose proof (plainName_kept _ (plainName_stem stem scriptExtension eq_refl Hname))
    as (Hstem & _).
  unfold extname.
  change ("src/scripts/" +:+ stem +:+ scriptExtension)
    with (render (["src"; "scripts"] ++ [stem +:+ scriptExtension])).
  rewrite lastSegment_render by (done || by repeat constructor).
  change scriptExtension with (String "." "ts") at 1.
  rewrite splitLastDot_append by done.
  apply String.eqb_neq in Hstem as ->.
  assert (String.eqb (stem +:+ scriptExtension) ".." = false) as ->; [|done].
  apply String.eqb_neq. intros H. apply (f_equal String.length) in H.
  rewrite length_append in H. simpl in H. lia.
Qed.

Lemma matches_all_script stem :
  plainName (stem +:+ scriptExtension) = true →
  Glob.matches "src/**" ("src/scripts/" +:+ stem +:+ scriptExtension) = true.
Proof.
  intros Hname. apply plainName_split in Hname as [Hvis Hsep].
  unfold Glob.matches.
  change (Glob.parse "src/**") with [Glob.Name "src"; Glob.GlobStar].
  assert (segments ("src/scripts/" +:+ stem +:+ scriptExtension)
          = ["src"; "scripts"; stem +:+ scriptExtension]) as ->.
  { change ("src/scripts/" +:+ ?x) with ("src" +:+ String sep ("scripts" +:+ String sep x)).
    unfold segments. by rewrite !split_append_any, (split_no_mem _ (_ +:+ _)). }
  rewrite matchParts_name, !matchParts_star. cbn [Glob.matchParts].
  change (Glob.visible "scripts") with true. rewrite Hvis. done.
Qed.

End EarlierScripts.

(** X4: in the earlier revision scripts in different directories can have
    one base name, and then the last match of [src/**] with that name gives
    the pair: the assignment overwrites the earlier ones. *)
Theorem earlier_last_script_wins __dirname host before path after :
  globSync host "src/**" = before ++ path :: after →
  Path.extname path = ".ts" →
  Path.basename path ".ts" ≠ "__proto__" →
  Forall (λ other, Path.extname other = ".ts" →
                   Path.basename other ".ts" ≠ Path.basename path ".ts") after →
  entry (Earlier.generateParameters __dirname host) !! Path.basename path ".ts"
  = Some ("./" +:+ path).
Proof.
  intros Hglob Hext Hproto Hafter.
  rewrite entry_earlier, Hglob, filter_app, filter_cons_True by done.
  rewrite fold_left_app. cbn [fold_left].
  generalize (fold_left addScript
                (filter (λ p, Path.extname p = ".ts") before) ∅).
  intros entry0. clear Hglob.
  assert (addScript entry0 path !! Path.basename path ".ts"
          = Some ("./" +:+ path)) as H.
  { unfold addScript, setProperty. change scriptExtension with ".ts".
    apply String.eqb_neq in Hproto as ->. by rewrite lookup_insert_eq. }
  revert H. generalize (addScript entry0 path). clear entry0.
  induction Hafter as [|other after Hother _ IH]; intros entry0 H; [done|].
  rewrite filter_cons. destruct (decide (Path.extname other = ".ts")) as [Hts|]; [|by apply IH].
  cbn [fold_left]. apply IH. unfold addScript, setProperty.
  change scriptExtension with ".ts".
  destruct (String.eqb (Path.basename other ".ts") "__proto__"); [done|].
  rewrite lookup_insert_ne; [done|]. by apply Hother.
Qed.

Lemma earlier_last_script_wins_witness :
  let host := {|
    cwd := "/work";
    globSync _ := ["src"; "src/admin"; "src/admin/util.ts"; "src/shop";
                   "src/shop/util.ts"; "src/index.html"]
  |} in
  entry (Earlier.generateParameters "/work" host) !! "util"
  = Some "./src/shop/util.ts".
Proof.
  intros host.
  exact (earlier_last_script_wins "/work" host
           ["src"; "src/admin"; "src/admin/util.ts"; "src/shop"] "src/shop/util.ts"
           ["src/index.html"] eq_refl
           ltac:(by vm_compute) ltac:(by vm_compute)
           ltac:(repeat constructor; by vm_compute)).
Defined.

(** X16: in the earlier revision every pair of the entry mapping comes from
    a match of [src/**] whose extension is [.ts], and a match contributes a
    page or a pair but never both: the pairs and the pages together are at
    most as many as the matches. *)
Theorem earlier_entry_and_pages __dirname host :
  let parameters := Earlier.generateParameters __dirname host in
  map_Forall
    (λ name value,
       ∃ path, path ∈ globSync host "src/**" ∧ Path.extname path = ".ts" ∧
               name = Path.basename path ".ts" ∧ value = "./" +:+ path)
    (entry parameters) ∧
  size (entry parameters) + length (htmlPages parameters)
    ≤ length (globSync host "src/**").
Proof.
  intros parameters. subst parameters.
  rewrite entry_earlier, EarlierFacts.htmlPages_earlier. split.
  - intros name value H.
    apply lookup_addScripts in H as [H|(path & Hin & Hname & Hvalue & _)].
    { by rewrite lookup_empty in H. }
    apply list_elem_of_filter in Hin as [Hext Hin]. by exists path.
  - rewrite length_fmap.
    pose proof (size_addScripts
                  (filter (λ path, Path.extname path = ".ts") (globSync host "src/**")) ∅)
      as Hsize.
    rewrite map_size_empty in Hsize.
    pose proof (length_filter_disjoint
                  (λ path, Path.extname path = ".ts")
                  (λ path, Path.extname path = ".html")
                  (globSync host "src/**")) as Hlen.
    specialize (Hlen ltac:(intros x H1 H2; simpl in H1, H2; congruence)). lia.
Qed.

(** X17: on a tree in which every script that the earlier revision takes
    lies directly in [src/scripts], the earlier revision and the module
    return the same entry mapping. *)
Theorem revisions_agree_on_scripts __dirname workingDirectory tree :
  (∀ path, path ∈ tree →
     Path.extname path = ".ts" → Glob.matches "src/**" path = true →
     isScript path) →
  entry (Earlier.generateParameters __dirname (treeHost workingDirectory tree))
  = entry (generateParameters __dirname (treeHost workingDirectory tree)).
Proof.
  intros Hflat. rewrite entry_earlier, entry_generateParameters. f_equal.
  cbn [globSync treeHost].
  rewrite (list_filter_filter (λ path, Path.extname path = ".ts")
             (λ path, Glob.matches "src/**" path = true)).
  apply filter_ext_elem. intros path Hin. split.
  - intros [Hext Hmatch]. apply GlobFacts.matches_scriptPattern. by apply Hflat.
  - intros Hmatch. apply GlobFacts.matches_scriptPattern in Hmatch as (stem & -> & Hname).
    split; [by apply extname_script|by apply matches_all_script].
Qed.

Lemma revisions_agree_on_scripts_witness :
  let tree := ["src/index.html"; "src/scripts/main.ts"; "src/styles/main.css"] in
  (∀ path, path ∈ tree →
     Path.extname path = ".ts" → Glob.matches "src/**" path = true →
     isScript path) ∧
  entry (Earlier.generateParameters "/work" (treeHost "/work" tree))
  = entry (generateParameters "/work" (treeHost "/work" tree)).
Proof.
  intros tree.
  assert (∀ path, path ∈ tree →
            Path.extname path = ".ts" → Glob.matches "src/**" path = true →
            isScript path) as Hflat.
  { intros path Hin Hext _.
    repeat (apply elem_of_cons in Hin as [->|Hin]); try by vm_compute in Hext.
    - by exists "main".
    - by apply elem_of_nil in Hin. }
  exact (conj Hflat (revisions_agree_on_scripts "/work" "/work" tree Hflat)).
Defined.
